(** * convert_summary.py: the Markdown block scanner and inline formatter

    A shallow embedding of [src/convert_summary.py].  The program reads a
    Markdown file into a list of lines, scans the lines once with a cursor
    [i], and appends reportlab flowables to a list [story] that is handed to
    the renderer.

    Conventions of the embedding.
    - A Python [str] is a [list ascii]; a character is a code point below
      256.  String literals are written ["..."] and read through [lit].
    - Code that can raise runs in the error monad [result]; [lines[i]] is
      [getitem], which raises [IndexError] out of range, the float
      division of [parse_table] raises [ZeroDivisionError] on a zero
      divisor, and [Paragraph(text, style)] raises [ValueError] on a text
      that reportlab refuses, as in Python.
    - The [while] loops carry their cursor explicitly and recurse on a
      fuel argument; [OutOfFuel] is an outcome of the model only, and the
      development proves that the fuel given by [parse_markdown_to_pdf] is
      always enough.
    - reportlab is outside the repository: its flowables are constructors
      of [flowable], the texts its paragraph parser accepts are a
      parameter ([Renderer]), lengths are exact rationals in points, and
      the constant [TableStyle] list and the page template are left
      out. *)

From Stdlib Require Import Ascii String QArith.
From Stdlib Require Import Arith Lia Bool List.
Import ListNotations.

Open Scope string_scope.
Open Scope list_scope.
Open Scope nat_scope.

(** ** Python strings *)

Definition str := list ascii.

Definition lit (s : string) : str := list_ascii_of_string s.
Coercion lit : string >-> str.

Module Py.

(** [str.isspace] on one character, for the code points below 256. *)
Definition isspace (c : ascii) : bool :=
  let n := nat_of_ascii c in
  ((9 <=? n) && (n <=? 13)) || ((28 <=? n) && (n <=? 32))
  || (n =? 133) || (n =? 160).

(** [s.rstrip()] *)
Fixpoint rstrip (s : str) : str :=
  match s with
  | [] => []
  | c :: s' =>
      match rstrip s' with
      | [] => if isspace c then [] else [c]
      | r => c :: r
      end
  end.

(** [s.lstrip()] *)
Fixpoint lstrip (s : str) : str :=
  match s with
  | [] => []
  | c :: s' => if isspace c then lstrip s' else s
  end.

(** [s.strip()] *)
Definition strip (s : str) : str := rstrip (lstrip s).

(** [s.startswith(prefix)] *)
Fixpoint startswith (prefix s : str) : bool :=
  match prefix, s with
  | [], _ => true
  | _ :: _, [] => false
  | p :: prefix', c :: s' => Ascii.eqb p c && startswith prefix' s'
  end.

(** [sub in s] *)
Fixpoint contains (sub s : str) : bool :=
  startswith sub s
  || match s with
     | [] => false
     | _ :: s' => contains sub s'
     end.

(** [a == b] *)
Fixpoint str_eqb (a b : str) : bool :=
  match a, b with
  | [], [] => true
  | x :: a', y :: b' => Ascii.eqb x y && str_eqb a' b'
  | _, _ => false
  end.

(** [not s] *)
Definition is_empty (s : str) : bool :=
  match s with [] => true | _ :: _ => false end.

(** [s.split(sep)] for a one-character separator. *)
Fixpoint split (sep : ascii) (s : str) : list str :=
  match s with
  | [] => [[]]
  | c :: s' =>
      if Ascii.eqb c sep then [] :: split sep s'
      else match split sep s' with
           | [] => [[c]]
           | f :: fs => (c :: f) :: fs
           end
  end.

(** [l[start:stop]] for indices that are not negative. *)
Definition slice {A} (l : list A) (start stop : nat) : list A :=
  firstn (stop - start) (skipn start l).

(** [l[1:-1]]: the stop index [-1] is [len(l) - 1], clipped at 0. *)
Definition slice_1_m1 {A} (l : list A) : list A :=
  slice l 1 (length l - 1).

(** [sep.join(l)] *)
Fixpoint join (sep : str) (l : list str) : str :=
  match l with
  | [] => []
  | [x] => x
  | x :: rest => x ++ sep ++ join sep rest
  end.

(** [s.replace(old, new)], for a non-empty [old] as in every call of the
    source.  The cursor walks the string; after a match the next
    [len(old) - 1] characters are skipped. *)
Fixpoint replace_from (old new : str) (skip : nat) (s : str) : str :=
  match s with
  | [] => []
  | c :: s' =>
      match skip with
      | S k => replace_from old new k s'
      | O =>
          if startswith old s
          then new ++ replace_from old new (length old - 1) s'
          else c :: replace_from old new 0 s'
      end
  end.

Definition replace (old new s : str) : str := replace_from old new 0 s.

End Py.

(** ** Regular expressions of [format_inline] *)

Module Re.

Definition newline : ascii := "010"%char.

(** The lazy group [(.+?)] followed by the literal [delim]: the number of
    characters the group takes.  The group takes one character, which
    must not be a newline, and grows by one character each time [delim]
    does not follow. *)
Fixpoint lazy_dot_plus (delim s : str) : option nat :=
  match s with
  | [] => None
  | c :: s' =>
      if Ascii.eqb c newline then None
      else if Py.startswith delim s' then Some 1
      else option_map S (lazy_dot_plus delim s')
  end.

(** A match of [delim(.+?)delim] at the start of [s]: the length of the
    group. *)
Definition match_span (delim s : str) : option nat :=
  if Py.startswith delim s
  then lazy_dot_plus delim (skipn (length delim) s)
  else None.

(** [re.sub(delim(.+?)delim, opening \1 closing, s)]: leftmost matches,
    not overlapping; after a match the rest of the matched text is
    skipped. *)
Fixpoint sub_span_from (delim opening closing : str) (skip : nat) (s : str)
  : str :=
  match s with
  | [] => []
  | c :: s' =>
      match skip with
      | S k => sub_span_from delim opening closing k s'
      | O =>
          match match_span delim s with
          | Some k =>
              opening ++ firstn k (skipn (length delim) s) ++ closing
              ++ sub_span_from delim opening closing
                   (length delim + k + length delim - 1) s'
          | None => c :: sub_span_from delim opening closing 0 s'
          end
      end
  end.

Definition sub_span (delim opening closing s : str) : str :=
  sub_span_from delim opening closing 0 s.

(** The greedy class [[^&]*]: the longest run of characters other than
    [&]. *)
Fixpoint not_amp_run (s : str) : nat :=
  match s with
  | [] => 0
  | c :: s' => if Ascii.eqb c "&"%char then 0 else S (not_amp_run s')
  end.

(** A match of the last pattern of [format_inline] (the text [&lt;], a
    group made of [font] and the class [[^&]*], the text [&gt;]) at the
    start of [s]: the length of the run after [font].  The class cannot give back characters, since
    [&gt;] starts with the [&] the class excludes. *)
Definition match_font (s : str) : option nat :=
  if Py.startswith "&lt;font" s then
    let r := skipn 8 s in
    let k := not_amp_run r in
    if Py.startswith "&gt;" (skipn k r) then Some k else None
  else None.

(** [re.sub] of that pattern by [<\1>]: the group between real angle
    brackets. *)
Fixpoint sub_font_from (skip : nat) (s : str) : str :=
  match s with
  | [] => []
  | c :: s' =>
      match skip with
      | S k => sub_font_from k s'
      | O =>
          match match_font s with
          | Some k =>
              lit "<" ++ (lit "font" ++ firstn k (skipn 8 s)) ++ lit ">"
              ++ sub_font_from (8 + k + 4 - 1) s'
          | None => c :: sub_font_from 0 s'
          end
      end
  end.

Definition sub_font (s : str) : str := sub_font_from 0 s.

End Re.

(** ** [format_inline] *)

(** The double quote character, written by its code point. *)
Definition dquote : str := [ascii_of_nat 34].

(** The opening tag of a code span:
    [<font face=?Courier? size=?9? color=?#c0392b?>] with [?] the double
    quote. *)
Definition font_open : str :=
  lit "<font face=" ++ dquote ++ lit "Courier" ++ dquote
  ++ lit " size=" ++ dquote ++ lit "9" ++ dquote
  ++ lit " color=" ++ dquote ++ lit "#c0392b" ++ dquote ++ lit ">".

Definition format_inline (text : str) : str :=
  let text := Py.replace "&" "&amp;" text in
  let text := Re.sub_span "***" "<b><i>" "</i></b>" text in
  let text := Re.sub_span "**" "<b>" "</b>" text in
  let text := Re.sub_span "*" "<i>" "</i>" text in
  let text := Re.sub_span "`" font_open "</font>" text in
  let text := Py.replace ">" "&gt;" (Py.replace "<" "&lt;" text) in
  let text := Py.replace "&lt;/b&gt;" "</b>" (Py.replace "&lt;b&gt;" "<b>" text) in
  let text := Py.replace "&lt;/i&gt;" "</i>" (Py.replace "&lt;i&gt;" "<i>" text) in
  let text := Py.replace "&lt;/font&gt;" "</font>" text in
  let text := Re.sub_font text in
  text.

(** ** Exceptions *)

Inductive exn : Type :=
| IndexError
| ZeroDivisionError
| ValueError.

Inductive result (A : Type) : Type :=
| Ok (a : A)
| Raise (e : exn)
| OutOfFuel.

Arguments Ok {A} a.
Arguments Raise {A} e.
Arguments OutOfFuel {A}.

Definition bind {A B} (m : result A) (k : A -> result B) : result B :=
  match m with
  | Ok a => k a
  | Raise e => Raise e
  | OutOfFuel => OutOfFuel
  end.

Notation "x <- m ;; k" := (bind m (fun x => k))
  (at level 61, m at next level, right associativity).
Notation "' p <- m ;; k" := (bind m (fun x => let p := x in k))
  (at level 61, p pattern, m at next level, right associativity).

(** [[f(x) for x in l]] when [f] can raise: the elements are computed
    from left to right and the first exception leaves the comprehension. *)
Fixpoint map_result {A B} (f : A -> result B) (l : list A) : result (list B) :=
  match l with
  | [] => Ok []
  | x :: l' =>
      y <- f x ;;
      ys <- map_result f l' ;;
      Ok (y :: ys)
  end.

(** [l[i]] for an index that is not negative. *)
Definition getitem {A} (l : list A) (i : nat) : result A :=
  match nth_error l i with
  | Some x => Ok x
  | None => Raise IndexError
  end.

(** [x / n] on a float [x] and an [int] [n]. *)
Definition truediv (x : Q) (n : nat) : result Q :=
  match n with
  | O => Raise ZeroDivisionError
  | S _ => Ok (x / inject_Z (Z.of_nat n))%Q
  end.

(** ** reportlab flowables *)

Inductive style : Type :=
| DocTitle | H2 | H3 | BodyText2 | BulletItem | CodeBlock
| TableHeader | TableCell.

(** The flowables, once they are built.  Of their constructors only
    [Paragraph] reads its text as markup; the others keep their arguments
    as they are given. *)
#[warnings="-register-all"]
Inductive flowable : Type :=
| Paragraph (text : str) (st : style)
| Spacer (width height : Q)
| HRFlowable (width : str) (thickness : Q) (color : str)
| Preformatted (text : str) (st : style)
| Table (data : list (list flowable)) (colWidths : list Q).

(** reportlab parses the markup of a paragraph when the paragraph is
    built, and [Paragraph(text, style)] raises [ValueError] on a text it
    refuses (a tag that is not closed, tags that cross).  The parser is
    not part of the repository: which texts it accepts, in which style,
    is a parameter of the embedding, and every property below holds
    whatever it accepts. *)
Class Renderer : Type := {
  accepts : str -> style -> bool
}.

(** The call [Paragraph(text, style)]. *)
Definition new_Paragraph {R : Renderer} (text : str) (st : style)
  : result flowable :=
  if accepts text st then Ok (Paragraph text st) else Raise ValueError.

(** [reportlab.lib.units.mm]: 72 points to the inch, 25.4 mm to the inch. *)
Definition mm : Q := 360 # 127.

(** [A4[0]], the page width. *)
Definition A4_width : Q := (210 * mm)%Q.

(** ** [parse_table] *)

(** [[c.strip() for c in line.split('|')[1:-1]]] *)
Definition row_cells (line : str) : list str :=
  map Py.strip (Py.slice_1_m1 (Py.split "|" line)).

(** [[Paragraph(format_inline(c), styles[st]) for c in cells]] *)
Definition build_cells {R : Renderer} (st : style) (cells : list str)
  : result (list flowable) :=
  map_result (fun c => new_Paragraph (format_inline c) st) cells.

(** The paragraphs of the header row and of the data rows are built
    before the column width is computed. *)
Definition parse_table {R : Renderer} (table_lines : list str)
  : result (option flowable) :=
  if length table_lines <? 3 then Ok None
  else
    header_line <- getitem table_lines 0 ;;
    let header_cells := row_cells header_line in
    let data_rows := map row_cells (skipn 2 table_lines) in
    header_row <- build_cells TableHeader header_cells ;;
    data <- map_result (build_cells TableCell) data_rows ;;
    let table_data := [header_row] ++ data in
    let num_cols := length header_cells in
    let available_width := (A4_width - 50 * mm)%Q in
    col_width <- truediv available_width num_cols ;;
    Ok (Some (Table table_data (repeat col_width num_cols))).

(** ** The block scanner of [parse_markdown_to_pdf] *)

Definition fence : str := "```".

(** The two inner loops have one shape,
    [while i < len(lines) and cond(lines[i]):
       acc.append(lines[i].rstrip()); i += 1],
    and differ in [cond] only. *)
Fixpoint collect_while (cond : str -> bool) (fuel : nat) (lines : list str)
  (i : nat) (acc : list str) : result (nat * list str) :=
  if i <? length lines then
    l <- getitem lines i ;;
    if cond l then
      match fuel with
      | O => OutOfFuel
      | S fuel' => collect_while cond fuel' lines (i + 1) (acc ++ [Py.rstrip l])
      end
    else Ok (i, acc)
  else Ok (i, acc).

(** [not lines[i].strip().startswith(fence)] *)
Definition code_line (l : str) : bool :=
  negb (Py.startswith fence (Py.strip l)).

(** ['|' in lines[i]] *)
Definition table_line (l : str) : bool := Py.contains "|" l.

(** The inner loop of the fence branch. *)
Definition collect_code := collect_while code_line.

(** The inner loop of the table branch. *)
Definition collect_table := collect_while table_line.

(** The test of the table branch:
    ['|' in line and i + 1 < len(lines) and '---' in lines[i + 1]];
    [and] evaluates its right operand only when the left one holds. *)
Definition table_lookahead (lines : list str) (i : nat) (line : str)
  : result bool :=
  if Py.contains "|" line then
    if i + 1 <? length lines then
      next <- getitem lines (i + 1) ;;
      Ok (Py.contains "---" next)
    else Ok false
  else Ok false.

Definition rule_color : str := "#dddddd".
Definition heading_rule_color : str := "#cccccc".
Definition bullet : str := "&bull; ".

(** One iteration of the main loop, entered with [i < len(lines)]: the new
    cursor and the new story.  [story] is local to the function and an
    exception discards it: the spacer and the rule that a section heading
    appends before its paragraph is built are lost with it when the
    renderer refuses the paragraph. *)
Definition scan_step {R : Renderer} (lines : list str) (i : nat)
  (story : list flowable) : result (nat * list flowable) :=
  raw <- getitem lines i ;;
  let line := Py.rstrip raw in
  if Py.is_empty line then Ok (i + 1, story)
  else if Py.startswith "# " line then
    let text := format_inline (skipn 2 line) in
    p <- new_Paragraph text DocTitle ;;
    Ok (i + 1, story ++ [p])
  else if Py.startswith "## " line then
    let text := format_inline (skipn 3 line) in
    p <- new_Paragraph text H2 ;;
    Ok (i + 1,
        story ++ [Spacer 1 (3 * mm)]
              ++ [HRFlowable "100%" 1 heading_rule_color]
              ++ [p])
  else if Py.startswith "### " line then
    let text := format_inline (skipn 4 line) in
    p <- new_Paragraph text H3 ;;
    Ok (i + 1, story ++ [p])
  else if Py.str_eqb (Py.strip line) "---" then
    Ok (i + 1,
        story ++ [Spacer 1 (3 * mm)]
              ++ [HRFlowable "100%" (1 # 2) rule_color]
              ++ [Spacer 1 (3 * mm)])
  else if Py.startswith fence line then
    '(i', code_lines) <- collect_code (length lines) lines (i + 1) [] ;;
    let code_text := Py.join [Re.newline] code_lines in
    Ok (i' + 1, story ++ [Preformatted code_text CodeBlock])
  else
    is_table <- table_lookahead lines i line ;;
    if is_table then
      '(i', table_lines) <- collect_table (length lines) lines i [] ;;
      table <- parse_table table_lines ;;
      match table with
      | Some t =>
          Ok (i', story ++ [Spacer 1 (2 * mm)] ++ [t] ++ [Spacer 1 (2 * mm)])
      | None => Ok (i', story)
      end
    else if Py.startswith "- " line then
      let text := format_inline (skipn 2 line) in
      p <- new_Paragraph (bullet ++ text) BulletItem ;;
      Ok (i + 1, story ++ [p])
    else
      let text := format_inline line in
      p <- new_Paragraph text BodyText2 ;;
      Ok (i + 1, story ++ [p]).

(** The main loop: [while i < len(lines)]. *)
Fixpoint scan_loop {R : Renderer} (fuel : nat) (lines : list str) (i : nat)
  (story : list flowable) : result (list flowable) :=
  if i <? length lines then
    match fuel with
    | O => OutOfFuel
    | S fuel' =>
        '(i', story') <- scan_step lines i story ;;
        scan_loop fuel' lines i' story'
    end
  else Ok story.

(** The story that [parse_markdown_to_pdf] hands to [doc.build], from the
    lines that [f.readlines()] returned.  Every iteration moves the cursor
    forward, so [len(lines)] iterations are enough. *)
Definition parse_markdown_to_pdf {R : Renderer} (lines : list str)
  : result (list flowable) :=
  scan_loop (length lines) lines 0 [].

(** A renderer that accepts every text; it stands for reportlab on the
    documents whose paragraphs reportlab accepts. *)
Definition accept_all : Renderer := {| accepts := fun _ _ => true |}.

(** A renderer that refuses every text that holds a [<]: a stand-in for
    the refusals of reportlab, to run the paths on which [Paragraph]
    raises. *)
Definition accept_plain : Renderer :=
  {| accepts := fun text _ => negb (Py.contains "<" text) |}.

(** ** Definitions used to state the properties *)

(** The longest prefix of [l] whose elements all satisfy [p]. *)
Fixpoint prefix_while {A} (p : A -> bool) (l : list A) : list A :=
  match l with
  | [] => []
  | x :: l' => if p x then x :: prefix_while p l' else []
  end.

(** The tests of [scan_step] that stand before the table test: blank
    line, the three headings, horizontal rule, fence. *)
Definition taken_before_table (line : str) : bool :=
  Py.is_empty line
  || Py.startswith "# " line
  || Py.startswith "## " line
  || Py.startswith "### " line
  || Py.str_eqb (Py.strip line) "---"
  || Py.startswith fence line.

(** The value of the table test: ['|' in line] and there is a next line
    and it contains [---]. *)
Definition lookahead_fires (lines : list str) (i : nat) (line : str) : bool :=
  Py.contains "|" line
  && match nth_error lines (i + 1) with
     | Some next => Py.contains "---" next
     | None => false
     end.

(** A line as [f.readlines()] returns it: the text and its newline. *)
Definition ln (s : string) : str := lit s ++ [Re.newline].

(** A table whose header row has no cell: [a|b] splits into two fields,
    and [[1:-1]] drops both. *)
Definition zero_column_table : list str :=
  [ln "a|b"; ln "---|---"; ln "c|d"].

(** A pipe line and a rule, then text: the lookahead fires and one line
    is collected. *)
Definition lone_pipe_line : list str :=
  [ln "a|b"; ln "---"; ln "text"].

(** A document that ends in a pipe line. *)
Definition pipe_last_line : list str :=
  [ln "text"; ln "a | b"].

(** A fence that is never closed. *)
Definition open_fence : list str :=
  [ln "```"; ln "x = 1"].

(** The number of [#] characters a line begins with. *)
Fixpoint hash_run (s : str) : nat :=
  match s with
  | [] => 0
  | c :: s' => if Ascii.eqb c "#"%char then S (hash_run s') else 0
  end.

(** Heading levels in the words of the specification: the line begins
    with exactly one, two or three [#] characters followed by a space. *)
Definition heading_level (line : str) : option nat :=
  let n := hash_run line in
  if (1 <=? n) && (n <=? 3) && Py.startswith " " (skipn n line)
  then Some n else None.

(** The flowables that render a heading. *)
Definition is_heading_block (f : flowable) : bool :=
  match f with
  | Paragraph _ DocTitle | Paragraph _ H2 | Paragraph _ H3 => true
  | _ => false
  end.

(** A document that ends in a heading with a pipe. *)
Definition heading_pipe_last_line : list str :=
  [ln "text"; ln "# a|b"].

(** A line of four [#] that contains a pipe, followed by a rule. *)
Definition four_hash_pipe : list str :=
  [ln "#### a|b"; ln "---"].

(** The lines [start .. stop - 1] of a document. *)
Definition chunk (lines : list str) (start stop : nat) : list str :=
  Py.slice lines start stop.

(** The blocks that a run of lines gives when it is read on its own.
    The first line decides the kind of the block; the lines after it are
    the body of a fence up to the closing fence, or the rows of a table.
    [table_test] tells whether the table test held on the first line; it
    is the one fact that the run does not carry when a single line is
    collected. *)
Definition chunk_blocks {R : Renderer} (table_test : bool) (c : list str)
  : result (list flowable) :=
  match c with
  | [] => Ok []
  | raw :: rest =>
      let line := Py.rstrip raw in
      if Py.is_empty line then Ok []
      else if Py.startswith "# " line then
        p <- new_Paragraph (format_inline (skipn 2 line)) DocTitle ;;
        Ok [p]
      else if Py.startswith "## " line then
        p <- new_Paragraph (format_inline (skipn 3 line)) H2 ;;
        Ok [Spacer 1 (3 * mm); HRFlowable "100%" 1 heading_rule_color; p]
      else if Py.startswith "### " line then
        p <- new_Paragraph (format_inline (skipn 4 line)) H3 ;;
        Ok [p]
      else if Py.str_eqb (Py.strip line) "---" then
        Ok [Spacer 1 (3 * mm); HRFlowable "100%" (1 # 2) rule_color;
            Spacer 1 (3 * mm)]
      else if Py.startswith fence line then
        Ok [Preformatted
              (Py.join [Re.newline]
                 (map Py.rstrip (prefix_while code_line rest)))
              CodeBlock]
      else if table_test then
        table <- parse_table (map Py.rstrip c) ;;
        match table with
        | Some t => Ok [Spacer 1 (2 * mm); t; Spacer 1 (2 * mm)]
        | None => Ok []
        end
      else if Py.startswith "- " line then
        p <- new_Paragraph (bullet ++ format_inline (skipn 2 line))
               BulletItem ;;
        Ok [p]
      else
        p <- new_Paragraph (format_inline line) BodyText2 ;;
        Ok [p]
  end.

(** The number of lines of the block that starts with the first line of
    [l], the document from that line on: a fence goes up to the next line
    that starts with a fence once stripped, that line included, or one
    past the end of the document; a table is the longest run of lines
    with a pipe; any other block is one line. *)
Definition block_width (table_test : bool) (l : list str) : nat :=
  match l with
  | [] => 0
  | raw :: rest =>
      let line := Py.rstrip raw in
      if Py.startswith fence line then
        1 + length (prefix_while code_line rest) + 1
      else if negb (taken_before_table line) && table_test then
        length (prefix_while table_line l)
      else 1
  end.

(** One iteration of the main loop seen from outside: the lines
    [seg_start .. seg_stop - 1] it consumed and the blocks it appended. *)
Record segment : Type := Segment {
  seg_start : nat;
  seg_stop : nat;
  seg_blocks : list flowable
}.

(** The iterations of a whole scan that starts with the cursor at [i]:
    each one starts where the one before stopped, consumes the lines of
    one block, and appends the blocks of the lines it consumed, read on
    their own. *)
Inductive segments {R : Renderer} (lines : list str)
  : nat -> list segment -> Prop :=
| segments_end (i : nat) :
    length lines <= i -> segments lines i []
| segments_step (i i' : nat) (raw : str) (blocks : list flowable)
    (rest : list segment) :
    nth_error lines i = Some raw ->
    i' = i + block_width (lookahead_fires lines i (Py.rstrip raw))
               (skipn i lines) ->
    chunk_blocks (lookahead_fires lines i (Py.rstrip raw)) (chunk lines i i')
    = Ok blocks ->
    segments lines i' rest ->
    segments lines i (Segment i i' blocks :: rest).

(** The document of the end-to-end scenario. *)
Definition four_line_document : list str :=
  [ln "# Title"; ln "## Section"; ln "- item one";
   ln "plain text with **bold**"].

(** Trailing-newline normalization in the words of the specification: the
    line without the line terminators (line feed, carriage return) it
    ends with.  White space of any other kind stays. *)
Fixpoint rstrip_newlines (s : str) : str :=
  match s with
  | [] => []
  | c :: s' =>
      match rstrip_newlines s' with
      | [] =>
          if Ascii.eqb c Re.newline || Ascii.eqb c "013"%char
          then [] else [c]
      | r => c :: r
      end
  end.

(** A fenced block whose first line ends in two spaces. *)
Definition trailing_space_fence : list str :=
  [ln "```"; ln "a  "; ln "b"; ln "```"].

(** A fenced block with inline markers in it, and text after it. *)
Definition fence_with_markers : list str :=
  [ln "```"; ln "x = *a* + `b`"; ln "# not a heading"; ln "```"; ln "after"].

(** A table written without the outer pipes. *)
Definition open_edge_table : list str :=
  [ln "a | b | c"; ln "---|---|---"; ln "1 | 2 | 3"].

(** The renderer accepts the formatted text of a cell. *)
Definition cell_ok {R : Renderer} (st : style) (c : str) : bool :=
  accepts (format_inline c) st.

(** The paragraphs of a table row, as [parse_table] builds them when the
    renderer accepts them all. *)
Definition cell_paragraphs (st : style) (cells : list str) : list flowable :=
  map (fun c => Paragraph (format_inline c) st) cells.

(** The renderer accepts the text of a paragraph. *)
Definition paragraph_accepted {R : Renderer} (f : flowable) : bool :=
  match f with
  | Paragraph text st => accepts text st
  | _ => true
  end.

(** The renderer accepts the paragraphs of a block: the block itself, or
    the cells of a table. *)
Definition block_accepted {R : Renderer} (f : flowable) : bool :=
  match f with
  | Paragraph text st => accepts text st
  | Table data _ => forallb (forallb paragraph_accepted) data
  | _ => true
  end.

(** The stages of [format_inline] after the escaping of [&]. *)
Definition inline_spans (text : str) : str :=
  Re.sub_span "`" font_open "</font>"
    (Re.sub_span "*" "<i>" "</i>"
       (Re.sub_span "**" "<b>" "</b>"
          (Re.sub_span "***" "<b><i>" "</i></b>" text))).

Definition escape_angle (text : str) : str :=
  Py.replace ">" "&gt;" (Py.replace "<" "&lt;" text).

Definition unescape_tags (text : str) : str :=
  Re.sub_font
    (Py.replace "&lt;/font&gt;" "</font>"
       (Py.replace "&lt;/i&gt;" "</i>"
          (Py.replace "&lt;i&gt;" "<i>"
             (Py.replace "&lt;/b&gt;" "</b>"
                (Py.replace "&lt;b&gt;" "<b>" text))))).

(** The tags of the renderer's markup that [format_inline] writes; the
    last one stands for every opening [<font ...>]. *)
Definition tags : list str :=
  ["<b>" : str; "</b>" : str; "<i>" : str; "</i>" : str; "</font>" : str;
   "<font" : str].

(** The text starts with one of the tags. *)
Definition tag_start (s : str) : bool :=
  existsb (fun t => Py.startswith t s) tags.

(** Every [<] of the text starts one of these tags. *)
Fixpoint angles_open_tags (s : str) : bool :=
  match s with
  | [] => true
  | c :: s' =>
      (if Ascii.eqb c "<"%char then tag_start s else true)
      && angles_open_tags s'
  end.

(** The groups of flowables that one iteration of the main loop can
    append to the story. *)
Inductive emitted : list flowable -> Prop :=
| emitted_nothing : emitted []
| emitted_paragraph (text : str) (st : style) :
    emitted [Paragraph (format_inline text) st]
| emitted_section (text : str) :
    emitted [Spacer 1 (3 * mm); HRFlowable "100%" 1 heading_rule_color;
             Paragraph (format_inline text) H2]
| emitted_rule :
    emitted [Spacer 1 (3 * mm); HRFlowable "100%" (1 # 2) rule_color;
             Spacer 1 (3 * mm)]
| emitted_code (text : str) :
    emitted [Preformatted text CodeBlock]
| emitted_table (header : list str) (rows : list (list str))
    (widths : list Q) :
    emitted [Spacer 1 (2 * mm);
             Table (cell_paragraphs TableHeader header
                    :: map (cell_paragraphs TableCell) rows) widths;
             Spacer 1 (2 * mm)]
| emitted_item (text : str) :
    emitted [Paragraph (bullet ++ format_inline text) BulletItem].

(** The markup of a paragraph is sound for the renderer when every [<]
    of its text starts a tag; the cells of a table are paragraphs. *)
Definition paragraph_tags_ok (f : flowable) : bool :=
  match f with
  | Paragraph text _ => angles_open_tags text
  | _ => true
  end.

Definition block_tags_ok (f : flowable) : bool :=
  match f with
  | Paragraph text _ => angles_open_tags text
  | Table data _ => forallb (forallb paragraph_tags_ok) data
  | _ => true
  end.

(** The escaping of [&], character by character. *)
Definition escape_amp_char (c : ascii) : str :=
  if Ascii.eqb "&"%char c then lit "&amp;" else [c].

(** The header row of a list of table lines; empty when there is none. *)
Definition header_of (table_lines : list str) : str := hd [] table_lines.

(** The number of pipes of a line. *)
Definition pipes (line : str) : nat :=
  count_occ Ascii.ascii_dec line "|"%char.

(** The renderer accepts every cell that [parse_table] builds from a list
    of table lines: the cells of the first line and of the lines from
    index 2 on. *)
Definition cells_ok {R : Renderer} (table_lines : list str) : bool :=
  forallb (cell_ok TableHeader) (row_cells (header_of table_lines))
  && forallb (forallb (cell_ok TableCell))
       (map row_cells (skipn 2 table_lines)).

(** The entities that [format_inline] writes, without their [&]. *)
Definition entities : list str := ["amp;" : str; "lt;" : str; "gt;" : str].

(** The text starts with the rest of an entity. *)
Definition entity_start (s : str) : bool :=
  existsb (fun t => Py.startswith t s) entities.

(** Every [&] of the text starts an entity. *)
Fixpoint amps_open_entities (s : str) : bool :=
  match s with
  | [] => true
  | c :: s' =>
      (if Ascii.eqb c "&"%char then entity_start s' else true)
      && amps_open_entities s'
  end.

(** * Properties *)

(** ** Lists and strings *)

Lemma skipn_nth_error {A} (l : list A) (i : nat) (x : A) :
  nth_error l i = Some x -> skipn i l = x :: skipn (S i) l.
Proof.
  revert l; induction i as [|i IH]; intros [|y l] H; simpl in *;
    try discriminate.
  - now inversion H.
  - now apply IH.
Qed.

Lemma getitem_in_range {A} (l : list A) (i : nat) :
  i < length l -> exists x, nth_error l i = Some x /\ getitem l i = Ok x.
Proof.
  intros H. unfold getitem.
  destruct (nth_error l i) as [x|] eqn:E.
  - now exists x.
  - apply nth_error_None in E. lia.
Qed.

Lemma getitem_Some {A} (l : list A) (i : nat) (x : A) :
  nth_error l i = Some x -> getitem l i = Ok x.
Proof. intros H. unfold getitem. now rewrite H. Qed.

Lemma prefix_while_length_le {A} (p : A -> bool) (l : list A) :
  length (prefix_while p l) <= length l.
Proof.
  induction l as [|x l IH]; simpl; [lia|].
  destruct (p x); simpl; lia.
Qed.

(** ** The inner loops *)

Section CollectWhile.

Variable cond : str -> bool.

(** With enough fuel the loop stops and has collected the longest run of
    lines satisfying [cond] that starts at the cursor, each stripped on
    the right. *)
Lemma prefix_while_skipn_at (lines : list str) (i : nat) (x : str) :
  nth_error lines i = Some x ->
  prefix_while cond (skipn i lines)
  = if cond x then x :: prefix_while cond (skipn (S i) lines) else [].
Proof. intros H. now rewrite (skipn_nth_error _ _ _ H). Qed.

Lemma prefix_while_skipn_end (lines : list str) (i : nat) :
  length lines <= i -> prefix_while cond (skipn i lines) = [].
Proof. intros H. now rewrite (skipn_all2 lines H). Qed.

Lemma collect_while_unfold (fuel : nat) (lines : list str) (i : nat)
  (acc : list str) :
  collect_while cond fuel lines i acc
  = if i <? length lines then
      l <- getitem lines i ;;
      if cond l then
        match fuel with
        | O => OutOfFuel
        | S fuel' =>
            collect_while cond fuel' lines (i + 1) (acc ++ [Py.rstrip l])
        end
      else Ok (i, acc)
    else Ok (i, acc).
Proof. destruct fuel; reflexivity. Qed.

Lemma collect_while_run (lines : list str) :
  forall fuel i acc,
    length (prefix_while cond (skipn i lines)) <= fuel ->
    collect_while cond fuel lines i acc
    = Ok (i + length (prefix_while cond (skipn i lines)),
          acc ++ map Py.rstrip (prefix_while cond (skipn i lines))).
Proof.
  induction fuel as [|fuel IH]; intros i acc Hfuel;
    rewrite collect_while_unfold;
    destruct (Nat.ltb_spec i (length lines)) as [Hi|Hi].
  - destruct (getitem_in_range lines i Hi) as (x & Hx & Hg).
    rewrite Hg. cbn [bind].
    rewrite (prefix_while_skipn_at _ _ _ Hx) in *.
    destruct (cond x); cbn [length map] in *; [lia|].
    now rewrite Nat.add_0_r, app_nil_r.
  - rewrite (prefix_while_skipn_end _ _ Hi). cbn [length map].
    now rewrite Nat.add_0_r, app_nil_r.
  - destruct (getitem_in_range lines i Hi) as (x & Hx & Hg).
    rewrite Hg. cbn [bind].
    rewrite (prefix_while_skipn_at _ _ _ Hx) in *.
    destruct (cond x); cbn [length map] in *.
    + rewrite Nat.add_1_r, IH by lia.
      rewrite <- app_assoc. cbn [app].
      f_equal. f_equal. lia.
    + now rewrite Nat.add_0_r, app_nil_r.
  - rewrite (prefix_while_skipn_end _ _ Hi). cbn [length map].
    now rewrite Nat.add_0_r, app_nil_r.
Qed.

(** The fuel [len(lines)] that [scan_step] gives is enough. *)
Lemma collect_while_lines (lines : list str) (i : nat) (acc : list str) :
  collect_while cond (length lines) lines i acc
  = Ok (i + length (prefix_while cond (skipn i lines)),
        acc ++ map Py.rstrip (prefix_while cond (skipn i lines))).
Proof.
  apply collect_while_run.
  etransitivity; [apply prefix_while_length_le|].
  rewrite length_skipn. lia.
Qed.

End CollectWhile.

(** ** Characters, [strip] and [in] *)

Lemma startswith_iff (p s : str) :
  Py.startswith p s = true <-> exists r, s = p ++ r.
Proof.
  revert s; induction p as [|x p IH]; intros s.
  - simpl. split; [intros _; now exists s|reflexivity].
  - destruct s as [|y s]; simpl.
    + split; [discriminate|]. intros [r H]. discriminate.
    + rewrite andb_true_iff, Ascii.eqb_eq, IH. split.
      * intros [-> [r ->]]. now exists r.
      * intros [r H]. inversion H. split; [reflexivity|now exists r].
Qed.

Lemma startswith_char (c : ascii) (s : str) :
  Py.startswith [c] s = true <-> exists s', s = c :: s'.
Proof.
  destruct s as [|x s]; simpl.
  - split; [discriminate|]. intros [s' H]. discriminate.
  - rewrite andb_true_r, Ascii.eqb_eq. split.
    + intros ->. now exists s.
    + intros [s' H]. now inversion H.
Qed.

Lemma contains_char_In (c : ascii) (s : str) :
  Py.contains [c] s = true <-> In c s.
Proof.
  induction s as [|x s IH].
  - simpl. split; [discriminate|tauto].
  - cbn [Py.contains]. rewrite orb_true_iff, IH, startswith_char. simpl.
    split.
    + intros [[s' H]|H]; [left; now inversion H|now right].
    + intros [->|H]; [left; now exists s|now right].
Qed.

Lemma In_lstrip (c : ascii) (s : str) :
  Py.isspace c = false -> In c s -> In c (Py.lstrip s).
Proof.
  intros Hc. induction s as [|x s IH]; simpl; [tauto|].
  intros [->|H].
  - rewrite Hc. now left.
  - destruct (Py.isspace x); [now apply IH|now right].
Qed.

Lemma In_rstrip (c : ascii) (s : str) :
  Py.isspace c = false -> In c s -> In c (Py.rstrip s).
Proof.
  intros Hc. induction s as [|x s IH]; simpl; [tauto|].
  intros [->|H].
  - destruct (Py.rstrip s); [rewrite Hc|]; now left.
  - specialize (IH H). destruct (Py.rstrip s); [destruct IH|now right].
Qed.

Lemma In_rstrip_inv (c : ascii) (s : str) :
  In c (Py.rstrip s) -> In c s.
Proof.
  induction s as [|x s IH]; simpl; [tauto|].
  destruct (Py.rstrip s) as [|y r].
  - destruct (Py.isspace x); simpl; tauto.
  - intros [->|H]; [now left|right; now apply IH].
Qed.

Lemma str_eqb_eq (a b : str) : Py.str_eqb a b = true <-> a = b.
Proof.
  revert b; induction a as [|x a IH]; intros [|y b]; simpl;
    try (split; [discriminate|congruence]); [tauto|].
  rewrite andb_true_iff, Ascii.eqb_eq, IH.
  split; [intros [-> ->]; reflexivity|intros H; now inversion H].
Qed.

Lemma pipe_not_space : Py.isspace "|"%char = false.
Proof. reflexivity. Qed.

(** A line that contains a pipe is not blank and is not a rule. *)
Lemma pipe_line_not_blank (line : str) :
  Py.contains "|" line = true -> Py.is_empty line = false.
Proof. destruct line; [discriminate|reflexivity]. Qed.

Lemma pipe_line_not_rule (line : str) :
  Py.contains "|" line = true -> Py.str_eqb (Py.strip line) "---" = false.
Proof.
  intros H. destruct (Py.str_eqb (Py.strip line) "---") eqn:E; [|reflexivity].
  apply str_eqb_eq in E. apply (contains_char_In "|"%char) in H.
  apply (In_lstrip _ _ pipe_not_space), (In_rstrip _ _ pipe_not_space) in H.
  fold (Py.strip line) in H. rewrite E in H. simpl in H.
  repeat (destruct H as [H|H]; [discriminate|]). destruct H.
Qed.

(** The [rstrip] of a line contains a pipe only if the line does. *)
Lemma pipe_in_rstrip (raw : str) :
  Py.contains "|" (Py.rstrip raw) = true -> table_line raw = true.
Proof.
  unfold table_line. intros H.
  apply (contains_char_In "|"%char) in H.
  apply (contains_char_In "|"%char). now apply In_rstrip_inv.
Qed.

(** ** [parse_table] *)

Lemma new_Paragraph_accepted {R : Renderer} (text : str) (st : style) :
  accepts text st = true -> new_Paragraph text st = Ok (Paragraph text st).
Proof. intros H. unfold new_Paragraph. now rewrite H. Qed.

Lemma new_Paragraph_refused {R : Renderer} (text : str) (st : style) :
  accepts text st = false -> new_Paragraph text st = Raise ValueError.
Proof. intros H. unfold new_Paragraph. now rewrite H. Qed.

(** A paragraph that is built carries the text it was given. *)
Lemma new_Paragraph_Ok {R : Renderer} (text : str) (st : style) (p : flowable) :
  new_Paragraph text st = Ok p ->
  p = Paragraph text st /\ accepts text st = true.
Proof.
  unfold new_Paragraph. destruct (accepts text st); [|discriminate].
  intros H. inversion H. now split.
Qed.

(** The cells of a row are built when the renderer accepts them all, and
    the first refusal raises. *)
Lemma build_cells_value {R : Renderer} (st : style) (cells : list str) :
  build_cells st cells
  = if forallb (cell_ok st) cells then Ok (cell_paragraphs st cells)
    else Raise ValueError.
Proof.
  unfold build_cells, cell_paragraphs.
  induction cells as [|c cells IH]; [reflexivity|].
  cbn [map_result forallb map]. unfold new_Paragraph at 1. unfold cell_ok at 1.
  destruct (accepts (format_inline c) st); cbn [bind andb]; [|reflexivity].
  rewrite IH. now destruct (forallb (cell_ok st) cells).
Qed.

Lemma build_rows_value {R : Renderer} (st : style) (rows : list (list str)) :
  map_result (build_cells st) rows
  = if forallb (forallb (cell_ok st)) rows
    then Ok (map (cell_paragraphs st) rows)
    else Raise ValueError.
Proof.
  induction rows as [|r rows IH]; [reflexivity|].
  cbn [map_result forallb map]. rewrite build_cells_value.
  destruct (forallb (cell_ok st) r); cbn [bind andb]; [|reflexivity].
  rewrite IH. now destruct (forallb (forallb (cell_ok st)) rows).
Qed.

Lemma parse_table_short {R : Renderer} (table_lines : list str) :
  length table_lines < 3 -> parse_table table_lines = Ok None.
Proof.
  intros H. unfold parse_table. now rewrite (proj2 (Nat.ltb_lt _ _) H).
Qed.

(** [parse_table] on three lines or more: the [ValueError] of a cell that
    the renderer refuses, the division by zero when the header row has no
    cell, or the table. *)
Lemma parse_table_long {R : Renderer} (h sep : str) (rows : list str) :
  rows <> [] ->
  parse_table (h :: sep :: rows)
  = if forallb (cell_ok TableHeader) (row_cells h)
       && forallb (forallb (cell_ok TableCell)) (map row_cells rows)
    then
      match length (row_cells h) with
      | O => Raise ZeroDivisionError
      | S _ =>
          Ok (Some (Table
            (cell_paragraphs TableHeader (row_cells h)
             :: map (cell_paragraphs TableCell) (map row_cells rows))
            (repeat ((A4_width - 50 * mm) / inject_Z (Z.of_nat (length (row_cells h))))%Q
                    (length (row_cells h)))))
      end
    else Raise ValueError.
Proof.
  intros Hrows. unfold parse_table.
  destruct rows as [|r rows]; [congruence|].
  cbn [length Nat.ltb Nat.leb getitem nth_error bind skipn].
  rewrite build_cells_value.
  destruct (forallb (cell_ok TableHeader) (row_cells h)); cbn [bind andb];
    [|reflexivity].
  rewrite build_rows_value.
  destruct (forallb (forallb (cell_ok TableCell)) (map row_cells (r :: rows)));
    cbn [bind]; [|reflexivity].
  unfold truediv. destruct (length (row_cells h)); reflexivity.
Qed.

Lemma parse_table_is_table {R : Renderer} (table_lines : list str)
  (t : flowable) :
  parse_table table_lines = Ok (Some t) ->
  exists data widths, t = Table data widths.
Proof.
  destruct table_lines as [|h [|sep [|r rows]]];
    try (rewrite parse_table_short by (simpl; lia); discriminate).
  rewrite parse_table_long by discriminate.
  destruct (_ && _); [|discriminate].
  destruct (length (row_cells h)); [discriminate|].
  intros H. inversion H. eexists. eexists. reflexivity.
Qed.

(** [parse_table] indexes no line that is not there and needs no fuel. *)
Lemma parse_table_outcome {R : Renderer} (table_lines : list str) :
  match parse_table table_lines with
  | Ok _ => True
  | Raise e => e <> IndexError
  | OutOfFuel => False
  end.
Proof.
  destruct table_lines as [|h [|sep [|r rows]]];
    try (rewrite parse_table_short by (simpl; lia); exact I).
  rewrite parse_table_long by discriminate.
  destruct (_ && _); [|discriminate].
  destruct (length (row_cells h)); [discriminate|exact I].
Qed.

(** ** One iteration of the main loop *)

Lemma table_lookahead_value (lines : list str) (i : nat) (line : str) :
  table_lookahead lines i line = Ok (lookahead_fires lines i line).
Proof.
  unfold table_lookahead, lookahead_fires.
  destruct (Py.contains "|" line); [|reflexivity]. cbn [andb].
  destruct (Nat.ltb_spec (i + 1) (length lines)) as [H|H].
  - destruct (getitem_in_range lines (i + 1) H) as (x & Hx & Hg).
    now rewrite Hg, Hx.
  - apply nth_error_None in H. now rewrite H.
Qed.

Lemma taken_before_table_false (line : str) :
  taken_before_table line = false ->
  Py.is_empty line = false
  /\ Py.startswith "# " line = false
  /\ Py.startswith "## " line = false
  /\ Py.startswith "### " line = false
  /\ Py.str_eqb (Py.strip line) "---" = false
  /\ Py.startswith fence line = false.
Proof.
  unfold taken_before_table. intros H.
  repeat (apply orb_false_iff in H; destruct H as [H ?]). tauto.
Qed.

(** The iteration on a line that reaches the table test. *)
Lemma scan_step_from_table_test {R : Renderer} (lines : list str) (i : nat)
  (story : list flowable) (raw : str) :
  nth_error lines i = Some raw ->
  taken_before_table (Py.rstrip raw) = false ->
  scan_step lines i story
  = let line := Py.rstrip raw in
    if lookahead_fires lines i line then
      let collected := prefix_while table_line (skipn i lines) in
      table <- parse_table (map Py.rstrip collected) ;;
      match table with
      | Some t =>
          Ok (i + length collected,
              story ++ [Spacer 1 (2 * mm)] ++ [t] ++ [Spacer 1 (2 * mm)])
      | None => Ok (i + length collected, story)
      end
    else if Py.startswith "- " line then
      p <- new_Paragraph (bullet ++ format_inline (skipn 2 line)) BulletItem ;;
      Ok (i + 1, story ++ [p])
    else
      p <- new_Paragraph (format_inline line) BodyText2 ;;
      Ok (i + 1, story ++ [p]).
Proof.
  intros Hraw Hbefore.
  destruct (taken_before_table_false _ Hbefore)
    as (H0 & H1 & H2 & H3 & H4 & H5).
  unfold scan_step. rewrite (getitem_Some _ _ _ Hraw). cbn [bind].
  rewrite H0, H1, H2, H3, H4, H5, table_lookahead_value. cbn [bind].
  cbv zeta. destruct (lookahead_fires lines i (Py.rstrip raw)); [|reflexivity].
  unfold collect_table. rewrite collect_while_lines. cbn [bind app].
  reflexivity.
Qed.

(** The iteration on a line that opens a fence. *)
Lemma scan_step_fence {R : Renderer} (lines : list str) (i : nat)
  (story : list flowable) (raw : str) :
  nth_error lines i = Some raw ->
  Py.startswith fence (Py.rstrip raw) = true ->
  scan_step lines i story
  = let body := prefix_while code_line (skipn (i + 1) lines) in
    Ok (i + 1 + length body + 1,
        story ++ [Preformatted (Py.join [Re.newline] (map Py.rstrip body))
                    CodeBlock]).
Proof.
  intros Hraw Hfence.
  unfold scan_step. rewrite (getitem_Some _ _ _ Hraw). cbn [bind].
  apply startswith_iff in Hfence. destruct Hfence as [rest E].
  rewrite E. change (fence ++ rest) with ("`" :: "`" :: "`" :: rest)%char.
  cbn [Py.is_empty].
  replace (Py.startswith "# " ("`" :: "`" :: "`" :: rest)%char) with false
    by reflexivity.
  replace (Py.startswith "## " ("`" :: "`" :: "`" :: rest)%char) with false
    by reflexivity.
  replace (Py.startswith "### " ("`" :: "`" :: "`" :: rest)%char) with false
    by reflexivity.
  replace (Py.str_eqb (Py.strip ("`" :: "`" :: "`" :: rest)%char) "---")
    with false.
  2:{ unfold Py.strip. cbn [Py.lstrip].
      replace (Py.isspace "`"%char) with false by reflexivity.
      cbn [Py.rstrip]. destruct (Py.rstrip rest); reflexivity. }
  replace (Py.startswith fence ("`" :: "`" :: "`" :: rest)%char) with true
    by reflexivity.
  unfold collect_code. rewrite collect_while_lines. cbn [bind app].
  reflexivity.
Qed.

(** The table branch collects at least the current line. *)
Lemma lookahead_collects (lines : list str) (i : nat) (raw : str) :
  nth_error lines i = Some raw ->
  lookahead_fires lines i (Py.rstrip raw) = true ->
  prefix_while table_line (skipn i lines)
  = raw :: prefix_while table_line (skipn (S i) lines).
Proof.
  intros Hraw Hfires. unfold lookahead_fires in Hfires.
  apply andb_true_iff in Hfires. destruct Hfires as [Hpipe _].
  rewrite (prefix_while_skipn_at _ _ _ _ Hraw).
  now rewrite (pipe_in_rstrip _ Hpipe).
Qed.

(** The iteration on a line that no test before the table test takes
    and on which the table test holds. *)
Lemma scan_step_table {R : Renderer} (lines : list str) (i : nat)
  (story : list flowable) (raw : str) :
  nth_error lines i = Some raw ->
  taken_before_table (Py.rstrip raw) = false ->
  lookahead_fires lines i (Py.rstrip raw) = true ->
  let collected := prefix_while table_line (skipn i lines) in
  1 <= length collected
  /\ scan_step lines i story
     = (table <- parse_table (map Py.rstrip collected) ;;
        match table with
        | Some t =>
            Ok (i + length collected,
                story ++ [Spacer 1 (2 * mm); t; Spacer 1 (2 * mm)])
        | None => Ok (i + length collected, story)
        end).
Proof.
  intros Hraw Hbefore Hfires collected. subst collected. split.
  - rewrite (lookahead_collects _ _ _ Hraw Hfires). simpl. lia.
  - rewrite (scan_step_from_table_test _ _ _ _ Hraw Hbefore). cbv zeta.
    now rewrite Hfires.
Qed.

(** The iteration on any other line: one line is consumed, and the
    blocks are those of the line read on its own. *)
Lemma scan_step_one_line {R : Renderer} (lines : list str) (i : nat)
  (story : list flowable) (raw : str) :
  nth_error lines i = Some raw ->
  Py.startswith fence (Py.rstrip raw) = false ->
  (taken_before_table (Py.rstrip raw) = false ->
   lookahead_fires lines i (Py.rstrip raw) = false) ->
  scan_step lines i story
  = (blocks <- chunk_blocks (lookahead_fires lines i (Py.rstrip raw)) [raw] ;;
     Ok (i + 1, story ++ blocks)).
Proof.
  intros Hraw Hfence Htable.
  unfold scan_step, chunk_blocks.
  rewrite (getitem_Some _ _ _ Hraw). cbn [bind]. cbv zeta.
  rewrite Hfence.
  destruct (Py.is_empty (Py.rstrip raw)) eqn:T0;
    [cbn [bind]; now rewrite app_nil_r|].
  destruct (Py.startswith "# " (Py.rstrip raw)) eqn:T1;
    [now destruct new_Paragraph|].
  destruct (Py.startswith "## " (Py.rstrip raw)) eqn:T2;
    [now destruct new_Paragraph|].
  destruct (Py.startswith "### " (Py.rstrip raw)) eqn:T3;
    [now destruct new_Paragraph|].
  destruct (Py.str_eqb (Py.strip (Py.rstrip raw)) "---") eqn:T4;
    [reflexivity|].
  rewrite table_lookahead_value, Htable; cbn [bind].
  - destruct (Py.startswith "- " (Py.rstrip raw));
      now destruct new_Paragraph.
  - unfold taken_before_table. now rewrite T0, T1, T2, T3, T4, Hfence.
Qed.

(** ** Runs of lines *)

Lemma chunk_cons (lines : list str) (i i' : nat) (raw : str) :
  nth_error lines i = Some raw ->
  i < i' ->
  chunk lines i i' = raw :: firstn (i' - i - 1) (skipn (S i) lines).
Proof.
  intros Hraw Hlt. unfold chunk, Py.slice.
  rewrite (skipn_nth_error _ _ _ Hraw).
  remember (i' - i - 1) as n eqn:En.
  replace (i' - i) with (S n) by lia. reflexivity.
Qed.

Lemma prefix_while_firstn {A} (p : A -> bool) (l : list A) :
  forall n,
    length (prefix_while p l) <= n ->
    prefix_while p (firstn n l) = prefix_while p l.
Proof.
  induction l as [|x l IH]; intros n Hn.
  - now rewrite firstn_nil.
  - cbn [prefix_while] in *. destruct (p x) eqn:E.
    + destruct n as [|n]; cbn [length] in Hn; [lia|].
      cbn [firstn prefix_while]. rewrite E. f_equal. apply IH. lia.
    + destruct n; cbn [firstn prefix_while]; [reflexivity|now rewrite E].
Qed.

Lemma firstn_prefix_while {A} (p : A -> bool) (l : list A) :
  firstn (length (prefix_while p l)) l = prefix_while p l.
Proof.
  induction l as [|x l IH]; [reflexivity|].
  cbn [prefix_while]. destruct (p x); [|reflexivity].
  cbn [length firstn]. now rewrite IH.
Qed.

(** The blocks of a run of lines need no fuel and index no line. *)
Lemma chunk_blocks_outcome {R : Renderer} (table_test : bool) (c : list str) :
  match chunk_blocks table_test c with
  | Ok _ => True
  | Raise e => e <> IndexError
  | OutOfFuel => False
  end.
Proof.
  unfold chunk_blocks. destruct c as [|raw rest]; [exact I|]. cbv zeta.
  repeat match goal with
         | |- context [if ?b then _ else _] => destruct b
         end;
    try exact I;
    try (unfold new_Paragraph; destruct (accepts _ _); cbn [bind];
         [exact I|discriminate]).
  pose proof (parse_table_outcome (map Py.rstrip (raw :: rest))) as H.
  destruct parse_table as [[t|]|e|]; cbn [bind]; assumption.
Qed.

(** Every iteration entered with the cursor on a line consumes a run of
    one line or more that starts at the cursor, and appends to the story
    the blocks of that run read on its own: the iteration looks at no
    other line, but for the table test on the line after the cursor. *)
Lemma block_width_at (lines : list str) (i : nat) (raw : str) :
  nth_error lines i = Some raw ->
  block_width (lookahead_fires lines i (Py.rstrip raw)) (skipn i lines)
  = if Py.startswith fence (Py.rstrip raw) then
      1 + length (prefix_while code_line (skipn (i + 1) lines)) + 1
    else if negb (taken_before_table (Py.rstrip raw))
            && lookahead_fires lines i (Py.rstrip raw)
    then length (prefix_while table_line (skipn i lines))
    else 1.
Proof.
  intros Hraw. rewrite (skipn_nth_error _ _ _ Hraw).
  replace (i + 1) with (S i) by lia. reflexivity.
Qed.

Lemma block_width_positive (lines : list str) (i : nat) (raw : str) :
  nth_error lines i = Some raw ->
  1 <= block_width (lookahead_fires lines i (Py.rstrip raw)) (skipn i lines).
Proof.
  intros Hraw. rewrite (block_width_at _ _ _ Hraw).
  destruct (Py.startswith fence (Py.rstrip raw)); [lia|].
  destruct (negb _ && _) eqn:E; [|lia].
  apply andb_true_iff in E. destruct E as [_ Hfires].
  rewrite (lookahead_collects _ _ _ Hraw Hfires). simpl. lia.
Qed.

Lemma scan_step_chunk {R : Renderer} (lines : list str) (i : nat)
  (raw : str) :
  nth_error lines i = Some raw ->
  exists i',
    i' = i + block_width (lookahead_fires lines i (Py.rstrip raw))
               (skipn i lines)
    /\ i < i'
    /\ i' <= length lines + 1
    /\ forall story,
         scan_step lines i story
         = (blocks <- chunk_blocks (lookahead_fires lines i (Py.rstrip raw))
                        (chunk lines i i') ;;
            Ok (i', story ++ blocks)).
Proof.
  intros Hraw.
  assert (Hi : i < length lines) by (apply nth_error_Some; congruence).
  pose proof (block_width_at _ _ _ Hraw) as Hw.
  destruct (Py.startswith fence (Py.rstrip raw)) eqn:Hfence.
  { (* the fence branch *)
    set (body := prefix_while code_line (skipn (i + 1) lines)).
    assert (Hbody : length body <= length lines - (i + 1)).
    { subst body. etransitivity; [apply prefix_while_length_le|].
      now rewrite length_skipn. }
    exists (i + 1 + length body + 1).
    split; [rewrite Hw; fold body; lia|].
    split; [lia|]. split; [lia|].
    intros story.
    rewrite (scan_step_fence _ _ _ _ Hraw Hfence). cbv zeta. fold body.
    rewrite (chunk_cons _ _ _ _ Hraw) by lia.
    replace (i + 1 + length body + 1 - i - 1) with (length body + 1) by lia.
    unfold chunk_blocks. cbv zeta.
    pose proof Hfence as Hshape.
    apply startswith_iff in Hshape. destruct Hshape as [rest E].
    rewrite E. change (fence ++ rest) with ("`" :: "`" :: "`" :: rest)%char.
    cbn [Py.is_empty].
    replace (Py.startswith "# " ("`" :: "`" :: "`" :: rest)%char) with false
      by reflexivity.
    replace (Py.startswith "## " ("`" :: "`" :: "`" :: rest)%char) with false
      by reflexivity.
    replace (Py.startswith "### " ("`" :: "`" :: "`" :: rest)%char) with false
      by reflexivity.
    replace (Py.str_eqb (Py.strip ("`" :: "`" :: "`" :: rest)%char) "---")
      with false.
    2:{ unfold Py.strip. cbn [Py.lstrip].
        replace (Py.isspace "`"%char) with false by reflexivity.
        cbn [Py.rstrip]. destruct (Py.rstrip rest); reflexivity. }
    replace (Py.startswith fence ("`" :: "`" :: "`" :: rest)%char) with true
      by reflexivity.
    cbn [bind].
    replace (S i) with (i + 1) by lia.
    rewrite prefix_while_firstn by (fold body; lia).
    reflexivity. }
  destruct (taken_before_table (Py.rstrip raw)) eqn:Hbefore.
  { exists (i + 1).
    split; [now rewrite Hw|].
    split; [lia|]. split; [lia|].
    intros story.
    rewrite (chunk_cons _ _ _ _ Hraw) by lia.
    replace (i + 1 - i - 1) with 0 by lia. cbn [firstn].
    apply (scan_step_one_line _ _ _ _ Hraw Hfence). congruence. }
  destruct (lookahead_fires lines i (Py.rstrip raw)) eqn:Hfires.
  - (* the table branch *)
    pose proof (lookahead_collects _ _ _ Hraw Hfires) as Hcoll.
    assert (Hlen : length (prefix_while table_line (skipn i lines))
                   <= length lines - i).
    { etransitivity; [apply prefix_while_length_le|].
      now rewrite length_skipn. }
    assert (Hone : 1 <= length (prefix_while table_line (skipn i lines)))
      by (rewrite Hcoll; simpl; lia).
    exists (i + length (prefix_while table_line (skipn i lines))).
    split; [now rewrite Hw|].
    split; [lia|]. split; [lia|].
    intros story.
    destruct (scan_step_table _ _ story _ Hraw Hbefore Hfires) as [_ Hstep].
    cbv zeta in Hstep. rewrite Hstep. clear Hstep.
    assert (Hchunk : chunk lines i
                       (i + length (prefix_while table_line (skipn i lines)))
                     = prefix_while table_line (skipn i lines)).
    { unfold chunk, Py.slice.
      replace (i + length (prefix_while table_line (skipn i lines)) - i)
        with (length (prefix_while table_line (skipn i lines))) by lia.
      apply firstn_prefix_while. }
    rewrite Hchunk.
    assert (Hblocks :
              chunk_blocks true (prefix_while table_line (skipn i lines))
              = (table <- parse_table
                            (map Py.rstrip
                               (prefix_while table_line (skipn i lines))) ;;
                 match table with
                 | Some t => Ok [Spacer 1 (2 * mm); t; Spacer 1 (2 * mm)]
                 | None => Ok []
                 end)).
    { rewrite Hcoll at 1. unfold chunk_blocks. cbv zeta.
      destruct (taken_before_table_false _ Hbefore)
        as (H0 & H1 & H2 & H3 & H4 & H5).
      rewrite H0, H1, H2, H3, H4, H5. now rewrite <- Hcoll. }
    rewrite Hblocks.
    destruct (parse_table
                (map Py.rstrip (prefix_while table_line (skipn i lines))))
      as [[t|]|e|]; cbn [bind]; try reflexivity.
    now rewrite app_nil_r.
  - exists (i + 1).
    split; [now rewrite Hw|].
    split; [lia|]. split; [lia|].
    intros story.
    rewrite (chunk_cons _ _ _ _ Hraw) by lia.
    replace (i + 1 - i - 1) with 0 by lia. cbn [firstn].
    rewrite <- Hfires.
    apply (scan_step_one_line _ _ _ _ Hraw Hfence). now rewrite Hfires.
Qed.

(** Every iteration that returns has moved the cursor forward and
    extended the story with blocks that do not depend on the story; an
    iteration that raises does not raise [IndexError]. *)
Lemma scan_step_outcome {R : Renderer} (lines : list str) (i : nat)
  (story : list flowable) :
  i < length lines ->
  match scan_step lines i story with
  | Ok (i', story') =>
      i < i'
      /\ exists blocks,
           story' = story ++ blocks /\ scan_step lines i [] = Ok (i', blocks)
  | Raise e => e <> IndexError
  | OutOfFuel => False
  end.
Proof.
  intros Hi. destruct (getitem_in_range lines i Hi) as (raw & Hraw & _).
  destruct (scan_step_chunk lines i raw Hraw) as (i' & _ & Hlt & _ & Hs).
  rewrite (Hs story), (Hs []).
  pose proof (chunk_blocks_outcome
                (lookahead_fires lines i (Py.rstrip raw)) (chunk lines i i'))
    as Hout.
  destruct (chunk_blocks _ (chunk lines i i')) as [blocks|e|];
    cbn [bind]; try assumption.
  split; [assumption|]. exists blocks. split; reflexivity.
Qed.

(** ** The main loop *)

Lemma scan_loop_unfold {R : Renderer} (fuel : nat) (lines : list str)
  (i : nat) (story : list flowable) :
  scan_loop fuel lines i story
  = if i <? length lines then
      match fuel with
      | O => OutOfFuel
      | S fuel' =>
          '(i', story') <- scan_step lines i story ;;
          scan_loop fuel' lines i' story'
      end
    else Ok story.
Proof. destruct fuel; reflexivity. Qed.

(** With a unit of fuel for each line from the cursor on, the loop ends:
    it returns a story or raises, and what it raises is not
    [IndexError]. *)
Lemma scan_loop_outcome {R : Renderer} (lines : list str) :
  forall fuel i story,
    length lines <= i + fuel ->
    match scan_loop fuel lines i story with
    | Ok _ => True
    | Raise e => e <> IndexError
    | OutOfFuel => False
    end.
Proof.
  induction fuel as [|fuel IH]; intros i story Hfuel;
    rewrite scan_loop_unfold;
    destruct (Nat.ltb_spec i (length lines)) as [Hi|Hi]; try exact I.
  - lia.
  - pose proof (scan_step_outcome lines i story Hi) as Hstep.
    destruct (scan_step lines i story) as [[i' story']|e|]; cbn [bind].
    + apply IH. lia.
    + assumption.
    + assumption.
Qed.

(** ** The renderer and the story *)

Lemma cell_ok_accept_all (st : style) (cells : list str) :
  forallb (cell_ok (R := accept_all) st) cells = true.
Proof. induction cells; [reflexivity|assumption]. Qed.

Lemma rows_ok_accept_all (st : style) (rows : list (list str)) :
  forallb (forallb (cell_ok (R := accept_all) st)) rows = true.
Proof.
  induction rows as [|r rows IH]; [reflexivity|].
  cbn [forallb]. now rewrite cell_ok_accept_all.
Qed.

Lemma cell_paragraphs_accepted {R : Renderer} (st : style)
  (cells : list str) :
  forallb paragraph_accepted (cell_paragraphs st cells)
  = forallb (cell_ok st) cells.
Proof.
  induction cells as [|c cells IH]; [reflexivity|].
  cbn [cell_paragraphs map forallb paragraph_accepted].
  unfold cell_paragraphs in IH. now rewrite IH.
Qed.

Lemma rows_paragraphs_accepted {R : Renderer} (st : style)
  (rows : list (list str)) :
  forallb (forallb paragraph_accepted) (map (cell_paragraphs st) rows)
  = forallb (forallb (cell_ok st)) rows.
Proof.
  induction rows as [|r rows IH]; [reflexivity|].
  cbn [map forallb]. now rewrite cell_paragraphs_accepted, IH.
Qed.

Lemma parse_table_none {R : Renderer} (table_lines : list str) :
  parse_table table_lines = Ok None -> length table_lines < 3.
Proof.
  destruct table_lines as [|h [|sep [|r rows]]]; try (simpl; lia).
  rewrite parse_table_long by discriminate.
  destruct (_ && _); [|discriminate].
  destruct (length (row_cells h)); discriminate.
Qed.

(** A table that is built for the renderer that accepts every text is
    built all the same for a renderer that accepts its cells. *)
Lemma parse_table_transfer {R : Renderer} (table_lines : list str)
  (t : flowable) :
  parse_table (R := accept_all) table_lines = Ok (Some t) ->
  block_accepted t = true ->
  parse_table table_lines = Ok (Some t).
Proof.
  destruct table_lines as [|h [|sep [|r rows]]];
    try (rewrite parse_table_short by (simpl; lia); discriminate).
  rewrite !parse_table_long by discriminate.
  rewrite cell_ok_accept_all, rows_ok_accept_all. cbn [andb].
  destruct (length (row_cells h)) as [|n]; [discriminate|].
  set (widths := repeat _ _).
  intros H.
  assert (Et : t = Table
                     (cell_paragraphs TableHeader (row_cells h)
                      :: map (cell_paragraphs TableCell)
                           (map row_cells (r :: rows)))
                     widths) by congruence.
  subst t. clear H.
  unfold block_accepted.
  change (forallb (forallb paragraph_accepted)
            (cell_paragraphs TableHeader (row_cells h)
             :: map (cell_paragraphs TableCell) (map row_cells (r :: rows))))
    with (forallb paragraph_accepted
            (cell_paragraphs TableHeader (row_cells h))
          && forallb (forallb paragraph_accepted)
               (map (cell_paragraphs TableCell) (map row_cells (r :: rows)))).
  rewrite cell_paragraphs_accepted, rows_paragraphs_accepted.
  now intros ->.
Qed.

Lemma chunk_blocks_transfer {R : Renderer} (table_test : bool)
  (c : list str) (blocks : list flowable) :
  chunk_blocks (R := accept_all) table_test c = Ok blocks ->
  forallb block_accepted blocks = true ->
  chunk_blocks table_test c = Ok blocks.
Proof.
  unfold chunk_blocks. destruct c as [|raw rest]; [now intros H _|].
  cbv zeta.
  assert (Hpar : forall text st (k : flowable -> list flowable),
             (forall p, forallb block_accepted (k p)
                        = block_accepted p
                          && forallb block_accepted (k (Spacer 0 0))) ->
             (p <- new_Paragraph (R := accept_all) text st ;; Ok (k p))
             = Ok blocks ->
             forallb block_accepted blocks = true ->
             (p <- new_Paragraph text st ;; Ok (k p)) = Ok blocks).
  { intros text st k Hk H. cbn in H. inversion H. subst blocks.
    rewrite Hk. intros A. apply andb_true_iff in A. destruct A as [A _].
    cbn [block_accepted] in A.
    now rewrite (new_Paragraph_accepted _ _ A). }
  destruct (Py.is_empty (Py.rstrip raw)); [now intros H _|].
  destruct (Py.startswith "# " (Py.rstrip raw)).
  { apply (Hpar _ _ (fun p => [p])). intros p. simpl.
    now rewrite andb_true_r. }
  destruct (Py.startswith "## " (Py.rstrip raw)).
  { apply (Hpar _ _ (fun p => [Spacer 1 (3 * mm);
                               HRFlowable "100%" 1 heading_rule_color; p])).
    intros p. simpl. now rewrite andb_true_r. }
  destruct (Py.startswith "### " (Py.rstrip raw)).
  { apply (Hpar _ _ (fun p => [p])). intros p. simpl.
    now rewrite andb_true_r. }
  destruct (Py.str_eqb (Py.strip (Py.rstrip raw)) "---"); [now intros H _|].
  destruct (Py.startswith fence (Py.rstrip raw)); [now intros H _|].
  destruct table_test.
  - destruct (parse_table (R := accept_all) (map Py.rstrip (raw :: rest)))
      as [[t|]|e|] eqn:Ht; cbn [bind]; try discriminate.
    + intros H. inversion H. subst blocks. cbn [forallb block_accepted].
      rewrite andb_true_r. intros A.
      now rewrite (parse_table_transfer _ _ Ht A).
    + intros H _. apply parse_table_none in Ht.
      now rewrite (parse_table_short _ Ht).
  - destruct (Py.startswith "- " (Py.rstrip raw)).
    + apply (Hpar _ _ (fun p => [p])). intros p. simpl.
      now rewrite andb_true_r.
    + apply (Hpar _ _ (fun p => [p])). intros p. simpl.
      now rewrite andb_true_r.
Qed.
(** ** Totality of the scan *)

(** A scan whose first line starts a table raises what [parse_table]
    raises on the collected lines. *)
Lemma scan_raises_at_first_table {R : Renderer} (lines : list str)
  (raw : str) (e : exn) :
  nth_error lines 0 = Some raw ->
  taken_before_table (Py.rstrip raw) = false ->
  lookahead_fires lines 0 (Py.rstrip raw) = true ->
  parse_table (map Py.rstrip (prefix_while table_line lines)) = Raise e ->
  parse_markdown_to_pdf lines = Raise e.
Proof.
  intros Hraw Hbefore Hfires Hparse. unfold parse_markdown_to_pdf.
  destruct lines as [|l lines]; [discriminate|].
  cbn [length]. rewrite scan_loop_unfold. cbn [length Nat.ltb Nat.leb].
  destruct (scan_step_table _ _ [] _ Hraw Hbefore Hfires) as [_ E].
  cbv zeta in E. rewrite E.
  change (skipn 0 (l :: lines)) with (l :: lines).
  now rewrite Hparse.
Qed.

(** C1. The scan is not total: on the three-line table whose header row
    [a|b] has no cell after [split('|')[1:-1]], [parse_table] divides the
    available width by zero columns and the [ZeroDivisionError] leaves the
    scanning loop, whatever the renderer accepts.  The same happens for
    the header row [|]; there the cell [x] of the data row is built
    first, so that the scan raises all the same when the renderer refuses
    it. *)
Theorem zero_column_table_raises {R : Renderer} :
  parse_markdown_to_pdf zero_column_table = Raise ZeroDivisionError
  /\ row_cells (Py.rstrip (ln "a|b")) = []
  /\ parse_markdown_to_pdf [ln "|"; ln "|---|"; ln "| x |"]
     = Raise (if accepts (lit "x") TableCell
              then ZeroDivisionError else ValueError).
Proof.
  split; [vm_compute; reflexivity|].
  split; [vm_compute; reflexivity|].
  apply (scan_raises_at_first_table _ (ln "|"));
    [reflexivity|vm_compute; reflexivity|vm_compute; reflexivity|].
  destruct R as [acc]. cbn [accepts]. vm_compute.
  match goal with |- context [acc ?t ?st] => destruct (acc t st) end;
    reflexivity.
Qed.

(** C9. The scanning loop terminates on every list of lines.  Every
    iteration entered with the cursor on a line ends, and when it returns
    it has moved the cursor forward by one at least (an iteration that
    does not return raises an exception, which ends the scan); the fence
    branch moves the cursor by two at least, closing fence or not; the
    table branch moves it by the number of collected lines, which counts
    the current line; and the loop of [parse_markdown_to_pdf] never runs
    out of its [len(lines)] iterations: the scan returns a story or
    raises. *)
Theorem scan_loop_terminates {R : Renderer} :
  (forall lines i story,
      i < length lines ->
      match scan_step lines i story with
      | Ok (i', _) => i < i'
      | Raise _ => True
      | OutOfFuel => False
      end)
  /\ (forall lines i story raw,
         nth_error lines i = Some raw ->
         Py.startswith fence (Py.rstrip raw) = true ->
         exists i' story',
           scan_step lines i story = Ok (i', story') /\ i + 2 <= i')
  /\ (forall lines i raw,
         nth_error lines i = Some raw ->
         lookahead_fires lines i (Py.rstrip raw) = true ->
         collect_table (length lines) lines i []
         = Ok (i + length (prefix_while table_line (skipn i lines)),
               map Py.rstrip (prefix_while table_line (skipn i lines)))
         /\ 1 <= length (prefix_while table_line (skipn i lines)))
  /\ (forall lines,
         (exists story, parse_markdown_to_pdf lines = Ok story)
         \/ (exists e, parse_markdown_to_pdf lines = Raise e)).
Proof.
  split; [|split; [|split]].
  - intros lines i story Hi.
    pose proof (scan_step_outcome lines i story Hi) as H.
    destruct (scan_step lines i story) as [[i' story']|e|]; tauto.
  - intros lines i story raw Hraw Hfence.
    rewrite (scan_step_fence _ _ _ _ Hraw Hfence). cbv zeta.
    eexists. eexists. split; [reflexivity|lia].
  - intros lines i raw Hraw Hfires. split.
    + unfold collect_table. now rewrite collect_while_lines.
    + rewrite (lookahead_collects _ _ _ Hraw Hfires). simpl. lia.
  - intros lines. unfold parse_markdown_to_pdf.
    pose proof (scan_loop_outcome lines (length lines) 0 [] (le_n _)) as H.
    destruct (scan_loop (length lines) lines 0 []) as [story|e|].
    + left. now exists story.
    + right. now exists e.
    + destruct H.
Qed.

Lemma scan_loop_terminates_witness :
  0 < length open_fence
  /\ match scan_step (R := accept_all) open_fence 0 [] with
     | Ok (i', _) => 0 < i'
     | Raise _ => True
     | OutOfFuel => False
     end.
Proof.
  split; [simpl; lia|].
  apply (proj1 (@scan_loop_terminates accept_all) open_fence 0 []).
  simpl. lia.
Defined.

(** C10, as the code has it.  The table test never reads past the last
    line.  On a last line that contains a pipe the test is false, without
    any access to a next line, and the iteration is the one of a single
    line on which the table test failed: a heading when the line starts
    with [# ], [## ] or [### ], the list-item rule or the paragraph rule
    when it does not and opens no fence.  A last line that opens a fence
    gives an empty code block.  No run of [parse_markdown_to_pdf] raises
    [IndexError]. *)
Theorem last_line_never_table_start {R : Renderer} :
  (forall lines i story raw,
      nth_error lines i = Some raw ->
      i + 1 = length lines ->
      Py.contains "|" (Py.rstrip raw) = true ->
      let line := Py.rstrip raw in
      table_lookahead lines i line = Ok false
      /\ (Py.startswith "# " line = false ->
          Py.startswith "## " line = false ->
          Py.startswith "### " line = false ->
          Py.startswith fence line = false ->
          scan_step lines i story
          = (p <- (if Py.startswith "- " line
                   then new_Paragraph (bullet ++ format_inline (skipn 2 line))
                          BulletItem
                   else new_Paragraph (format_inline line) BodyText2) ;;
             Ok (i + 1, story ++ [p])))
      /\ (Py.startswith fence line = false ->
          scan_step lines i story
          = (blocks <- chunk_blocks false [raw] ;;
             Ok (i + 1, story ++ blocks)))
      /\ (Py.startswith fence line = true ->
          scan_step lines i story
          = Ok (i + 2, story ++ [Preformatted [] CodeBlock])))
  /\ (forall lines, parse_markdown_to_pdf lines <> Raise IndexError).
Proof.
  split.
  - intros lines i story raw Hraw Hlast Hpipe line. subst line.
    assert (Hnone : lookahead_fires lines i (Py.rstrip raw) = false).
    { unfold lookahead_fires.
      replace (nth_error lines (i + 1)) with (@None str);
        [apply andb_false_r|].
      symmetry. apply nth_error_None. lia. }
    split; [|split; [|split]].
    + now rewrite table_lookahead_value, Hnone.
    + intros H1 H2 H3 H5.
      rewrite (scan_step_from_table_test _ _ _ _ Hraw).
      * cbv zeta. rewrite Hnone.
        now destruct (Py.startswith "- " (Py.rstrip raw)).
      * unfold taken_before_table.
        rewrite (pipe_line_not_blank _ Hpipe), (pipe_line_not_rule _ Hpipe).
        now rewrite H1, H2, H3, H5.
    + intros Hfence. rewrite <- Hnone at 1.
      now apply (scan_step_one_line _ _ _ _ Hraw Hfence).
    + intros Hfence.
      rewrite (scan_step_fence _ _ _ _ Hraw Hfence). cbv zeta.
      rewrite skipn_all2 by lia. cbn [prefix_while length map Py.join].
      do 2 f_equal. lia.
  - intros lines. unfold parse_markdown_to_pdf.
    pose proof (scan_loop_outcome lines (length lines) 0 [] (le_n _)) as H.
    destruct (scan_loop (length lines) lines 0 []) as [story|e|];
      [discriminate| |destruct H].
    congruence.
Qed.

Lemma last_line_never_table_start_witness :
  table_lookahead pipe_last_line 1 (Py.rstrip (ln "a | b")) = Ok false
  /\ scan_step (R := accept_all) pipe_last_line 1 []
     = Ok (2, [Paragraph "a | b" BodyText2]).
Proof.
  pose proof (proj1 (@last_line_never_table_start accept_all)
                pipe_last_line 1 [] (ln "a | b") eq_refl eq_refl eq_refl)
    as [H1 [H2 _]].
  split; [exact H1|].
  exact (H2 eq_refl eq_refl eq_refl eq_refl).
Defined.

(** The claim C10 as written fails on a last line that is a heading: the
    line [# a|b] contains a pipe and is the last line, and it is emitted
    as a Title, not through the list-item rule or the paragraph rule. *)
Lemma last_pipe_line_is_a_title :
  nth_error heading_pipe_last_line 1 = Some (ln "# a|b")
  /\ length heading_pipe_last_line = 2
  /\ Py.contains "|" (Py.rstrip (ln "# a|b")) = true
  /\ scan_step (R := accept_all) heading_pipe_last_line 1 []
     = Ok (2, [Paragraph "a|b" DocTitle])
  /\ scan_step (R := accept_all) heading_pipe_last_line 1 []
     <> Ok (2, [Paragraph (bullet ++ format_inline (skipn 2 (lit "# a|b")))
                  BulletItem])
  /\ scan_step (R := accept_all) heading_pipe_last_line 1 []
     <> Ok (2, [Paragraph (format_inline "# a|b") BodyText2]).
Proof.
  assert (E : scan_step (R := accept_all) heading_pipe_last_line 1 []
              = Ok (2, [Paragraph "a|b" DocTitle]))
    by (vm_compute; reflexivity).
  split; [reflexivity|]. split; [reflexivity|].
  split; [vm_compute; reflexivity|]. split; [exact E|].
  rewrite E. split; discriminate.
Qed.

(** ** Tables too short to be tables *)

(** C6. When the table test holds on a line and fewer than three
    consecutive lines containing a pipe are collected, the iteration
    leaves the story as it was: no table, no paragraph, no spacer, no
    exception.  The cursor moves past the collected lines, of which there
    is one at least. *)
Theorem short_table_emits_nothing {R : Renderer} (lines : list str) (i : nat)
  (story : list flowable) (raw : str) :
  nth_error lines i = Some raw ->
  taken_before_table (Py.rstrip raw) = false ->
  lookahead_fires lines i (Py.rstrip raw) = true ->
  length (prefix_while table_line (skipn i lines)) < 3 ->
  scan_step lines i story
  = Ok (i + length (prefix_while table_line (skipn i lines)), story)
  /\ 1 <= length (prefix_while table_line (skipn i lines)).
Proof.
  intros Hraw Hbefore Hfires Hshort. split.
  - rewrite (scan_step_from_table_test _ _ _ _ Hraw Hbefore). cbv zeta.
    rewrite Hfires, parse_table_short; [reflexivity|].
    now rewrite length_map.
  - rewrite (lookahead_collects _ _ _ Hraw Hfires). simpl. lia.
Qed.

Lemma short_table_emits_nothing_witness :
  scan_step (R := accept_all) lone_pipe_line 0 [] = Ok (1, [])
  /\ parse_markdown_to_pdf (R := accept_all) [ln "a|b"; ln "---|---"] = Ok [].
Proof.
  split.
  - refine (proj1 (@short_table_emits_nothing accept_all lone_pipe_line 0 []
                     (ln "a|b") _ _ _ _)); [reflexivity..|simpl; lia].
  - vm_compute. reflexivity.
Defined.

(** ** Headings *)

Lemma hash_run_split (line : str) :
  line = repeat "#"%char (hash_run line) ++ skipn (hash_run line) line.
Proof.
  induction line as [|c line IH]; [reflexivity|]. cbn [hash_run].
  destruct (Ascii.eqb c "#") eqn:E; [|reflexivity].
  apply Ascii.eqb_eq in E. subst c. cbn [repeat skipn app]. now f_equal.
Qed.

(** The three [startswith] tests of the scanner decide the heading level
    of the specification. *)
Lemma heading_level_tests (line : str) :
  heading_level line
  = if Py.startswith "# " line then Some 1
    else if Py.startswith "## " line then Some 2
    else if Py.startswith "### " line then Some 3
    else None.
Proof.
  destruct (Py.startswith "# " line) eqn:H1.
  { apply startswith_iff in H1. destruct H1 as [r ->]. reflexivity. }
  destruct (Py.startswith "## " line) eqn:H2.
  { apply startswith_iff in H2. destruct H2 as [r ->]. reflexivity. }
  destruct (Py.startswith "### " line) eqn:H3.
  { apply startswith_iff in H3. destruct H3 as [r ->]. reflexivity. }
  unfold heading_level.
  destruct ((1 <=? hash_run line) && (hash_run line <=? 3)
            && Py.startswith " " (skipn (hash_run line) line)) eqn:E;
    [exfalso|reflexivity].
  apply andb_true_iff in E. destruct E as [E Hsp].
  apply andb_true_iff in E. destruct E as [Hlo Hhi].
  apply Nat.leb_le in Hlo, Hhi.
  apply startswith_iff in Hsp. destruct Hsp as [r Hr].
  pose proof (hash_run_split line) as Hline. rewrite Hr in Hline.
  destruct (hash_run line) as [|[|[|[|n]]]]; try lia;
    rewrite Hline in H1, H2, H3; discriminate.
Qed.

Lemma heading_level_four_hashes (line : str) :
  4 <= hash_run line -> heading_level line = None.
Proof.
  intros H. unfold heading_level.
  replace (hash_run line <=? 3) with false; [now rewrite andb_false_r|].
  symmetry. apply Nat.leb_gt. lia.
Qed.

(** A line that begins with [#] is not blank, not a rule, not a fence
    and not a list item. *)
Lemma hash_line_tests (line : str) :
  1 <= hash_run line ->
  Py.is_empty line = false
  /\ Py.str_eqb (Py.strip line) "---" = false
  /\ Py.startswith fence line = false
  /\ Py.startswith "- " line = false.
Proof.
  intros H. rewrite (hash_run_split line).
  destruct (hash_run line) as [|n]; [lia|]. cbn [repeat app].
  repeat split; try reflexivity.
  unfold Py.strip. cbn [Py.lstrip].
  replace (Py.isspace "#"%char) with false by reflexivity.
  cbn [Py.rstrip]. destruct (Py.rstrip _); reflexivity.
Qed.

(** The blocks of a run whose first line is not a heading hold no
    heading. *)
Lemma chunk_blocks_no_heading {R : Renderer} (table_test : bool)
  (c : list str) (raw : str) (rest : list str) (blocks : list flowable) :
  c = raw :: rest ->
  heading_level (Py.rstrip raw) = None ->
  chunk_blocks table_test c = Ok blocks ->
  existsb is_heading_block blocks = false.
Proof.
  intros -> Hlevel. rewrite heading_level_tests in Hlevel.
  destruct (Py.startswith "# " (Py.rstrip raw)) eqn:H1; [discriminate|].
  destruct (Py.startswith "## " (Py.rstrip raw)) eqn:H2; [discriminate|].
  destruct (Py.startswith "### " (Py.rstrip raw)) eqn:H3; [discriminate|].
  clear Hlevel. unfold chunk_blocks. cbv zeta. rewrite H1, H2, H3.
  destruct (Py.is_empty (Py.rstrip raw));
    [intros H; now inversion H|].
  destruct (Py.str_eqb (Py.strip (Py.rstrip raw)) "---");
    [intros H; now inversion H|].
  destruct (Py.startswith fence (Py.rstrip raw));
    [intros H; now inversion H|].
  destruct table_test.
  - destruct parse_table as [[t|]|e|] eqn:Ht; cbn [bind]; try discriminate.
    + destruct (parse_table_is_table _ _ Ht) as (data & widths & ->).
      intros H. now inversion H.
    + intros H. now inversion H.
  - destruct (Py.startswith "- " (Py.rstrip raw));
      (destruct new_Paragraph as [p| |] eqn:Hp; cbn [bind];
       try discriminate;
       apply new_Paragraph_Ok in Hp; destruct Hp as [-> _];
       intros H; now inversion H).
Qed.

(** An iteration on a line that is not a heading emits no heading. *)
Lemma scan_step_no_heading {R : Renderer} (lines : list str) (i : nat)
  (story : list flowable) (raw : str) (i' : nat) (story' : list flowable) :
  nth_error lines i = Some raw ->
  heading_level (Py.rstrip raw) = None ->
  scan_step lines i story = Ok (i', story') ->
  exists blocks,
    story' = story ++ blocks /\ existsb is_heading_block blocks = false.
Proof.
  intros Hraw Hlevel.
  destruct (scan_step_chunk lines i raw Hraw) as (j & _ & Hlt & _ & Hs).
  rewrite Hs.
  destruct (chunk_blocks _ (chunk lines i j)) as [blocks|e|] eqn:E;
    cbn [bind]; try discriminate.
  intros H. inversion H. subst. exists blocks. split; [reflexivity|].
  rewrite (chunk_cons _ _ _ _ Hraw Hlt) in E.
  exact (chunk_blocks_no_heading _ _ _ _ _ eq_refl Hlevel E).
Qed.

Lemma heading_level_shape (line : str) (n : nat) :
  heading_level line = Some n ->
  exists r, line = repeat "#"%char n ++ " "%char :: r /\ 1 <= n <= 3.
Proof.
  unfold heading_level.
  destruct ((1 <=? hash_run line) && (hash_run line <=? 3)
            && Py.startswith " " (skipn (hash_run line) line)) eqn:E;
    [|discriminate].
  intros H. inversion H. subst n.
  apply andb_true_iff in E. destruct E as [E Hsp].
  apply andb_true_iff in E. destruct E as [Hlo Hhi].
  apply Nat.leb_le in Hlo, Hhi.
  apply startswith_iff in Hsp. destruct Hsp as [r Hr].
  exists r. split; [|lia].
  rewrite (hash_run_split line) at 1. now rewrite Hr.
Qed.

(** C7, as the code has it.  The scanner classifies the line stripped of
    its trailing white space.  That line is emitted as Title,
    SectionHeading (after a spacer and a rule) or SubHeading when it
    begins with exactly one, two or three [#] followed by a space, with
    the text after the [#] run and one space, inline-formatted; the
    paragraph is built by the renderer, whose refusal of the text leaves
    the scan.  A line of any other shape makes the iteration emit no
    heading.  A line with four [#] or more is no heading; it becomes a
    paragraph unless the table test holds on it (it contains a pipe and
    the next line contains [---]), in which case the table branch takes
    it. *)
Theorem heading_classification {R : Renderer} (lines : list str) (i : nat)
  (story : list flowable) (raw : str) :
  nth_error lines i = Some raw ->
  let line := Py.rstrip raw in
  let text := format_inline (skipn (hash_run line + 1) line) in
  (heading_level line = Some 1 ->
   scan_step lines i story
   = (p <- new_Paragraph text DocTitle ;; Ok (i + 1, story ++ [p])))
  /\ (heading_level line = Some 2 ->
      scan_step lines i story
      = (p <- new_Paragraph text H2 ;;
         Ok (i + 1,
             story ++ [Spacer 1 (3 * mm);
                       HRFlowable "100%" 1 heading_rule_color;
                       p])))
  /\ (heading_level line = Some 3 ->
      scan_step lines i story
      = (p <- new_Paragraph text H3 ;; Ok (i + 1, story ++ [p])))
  /\ (heading_level line = None ->
      forall i' story',
        scan_step lines i story = Ok (i', story') ->
        exists blocks,
          story' = story ++ blocks
          /\ existsb is_heading_block blocks = false)
  /\ (4 <= hash_run line ->
      heading_level line = None
      /\ (lookahead_fires lines i line = false ->
          scan_step lines i story
          = (p <- new_Paragraph (format_inline line) BodyText2 ;;
             Ok (i + 1, story ++ [p])))
      /\ (lookahead_fires lines i line = true ->
          scan_step lines i story
          = (table <- parse_table
                        (map Py.rstrip
                           (prefix_while table_line (skipn i lines))) ;;
             match table with
             | Some t =>
                 Ok (i + length (prefix_while table_line (skipn i lines)),
                     story ++ [Spacer 1 (2 * mm); t; Spacer 1 (2 * mm)])
             | None =>
                 Ok (i + length (prefix_while table_line (skipn i lines)),
                     story)
             end))).
Proof.
  intros Hraw line text. subst line text.
  repeat split.
  - intros H. destruct (heading_level_shape _ _ H) as (r & Hline & _).
    unfold scan_step. rewrite (getitem_Some _ _ _ Hraw). cbn [bind].
    rewrite Hline. reflexivity.
  - intros H. destruct (heading_level_shape _ _ H) as (r & Hline & _).
    unfold scan_step. rewrite (getitem_Some _ _ _ Hraw). cbn [bind].
    rewrite Hline. reflexivity.
  - intros H. destruct (heading_level_shape _ _ H) as (r & Hline & _).
    unfold scan_step. rewrite (getitem_Some _ _ _ Hraw). cbn [bind].
    rewrite Hline. reflexivity.
  - intros H i' story' Hstep.
    exact (scan_step_no_heading _ _ _ _ _ _ Hraw H Hstep).
  - now apply heading_level_four_hashes.
  - intros Hfires.
    pose proof (heading_level_four_hashes _ H) as Hnone.
    rewrite heading_level_tests in Hnone.
    destruct (hash_line_tests (Py.rstrip raw)) as (T0 & T4 & T5 & T6); [lia|].
    destruct (Py.startswith "# " (Py.rstrip raw)) eqn:T1; [discriminate|].
    destruct (Py.startswith "## " (Py.rstrip raw)) eqn:T2; [discriminate|].
    destruct (Py.startswith "### " (Py.rstrip raw)) eqn:T3; [discriminate|].
    rewrite (scan_step_from_table_test _ _ _ _ Hraw).
    + cbv zeta. now rewrite Hfires, T6.
    + unfold taken_before_table. now rewrite T0, T1, T2, T3, T4, T5.
  - intros Hfires.
    pose proof (heading_level_four_hashes _ H) as Hnone.
    rewrite heading_level_tests in Hnone.
    destruct (hash_line_tests (Py.rstrip raw)) as (T0 & T4 & T5 & T6); [lia|].
    destruct (Py.startswith "# " (Py.rstrip raw)) eqn:T1; [discriminate|].
    destruct (Py.startswith "## " (Py.rstrip raw)) eqn:T2; [discriminate|].
    destruct (Py.startswith "### " (Py.rstrip raw)) eqn:T3; [discriminate|].
    rewrite (scan_step_from_table_test _ _ _ _ Hraw).
    + cbv zeta. now rewrite Hfires.
    + unfold taken_before_table. now rewrite T0, T1, T2, T3, T4, T5.
Qed.

Lemma heading_classification_witness :
  scan_step (R := accept_all) [ln "## Section"] 0 []
  = Ok (1, [Spacer 1 (3 * mm); HRFlowable "100%" 1 heading_rule_color;
            Paragraph "Section" H2]).
Proof.
  exact (proj1 (proj2 (@heading_classification accept_all [ln "## Section"]
                         0 [] (ln "## Section") eq_refl)) eq_refl).
Defined.

(** The claim C7 as written fails on a line of four [#]: followed by a
    line that contains [---], the line [#### a|b] passes the table test,
    is collected alone and dropped; no paragraph is emitted for it. *)
Lemma four_hashes_taken_by_table :
  4 <= hash_run (Py.rstrip (ln "#### a|b"))
  /\ scan_step (R := accept_all) four_hash_pipe 0 [] = Ok (1, [])
  /\ scan_step (R := accept_all) four_hash_pipe 0 []
     <> Ok (1, [Paragraph (format_inline "#### a|b") BodyText2]).
Proof.
  assert (E : scan_step (R := accept_all) four_hash_pipe 0 [] = Ok (1, []))
    by (vm_compute; reflexivity).
  split; [simpl; lia|]. split; [exact E|].
  rewrite E. discriminate.
Qed.

(** ** Order of the blocks *)

(** A scan that returns splits into iterations, and its story is the old
    story followed by their blocks in the order of the iterations. *)
Lemma scan_loop_segments {R : Renderer} (lines : list str) :
  forall fuel i story story',
    scan_loop fuel lines i story = Ok story' ->
    exists segs,
      segments lines i segs
      /\ story' = story ++ concat (map seg_blocks segs).
Proof.
  induction fuel as [|fuel IH]; intros i story story';
    rewrite scan_loop_unfold;
    destruct (Nat.ltb_spec i (length lines)) as [Hi|Hi];
    try discriminate.
  - intros H. inversion H. exists []. split.
    + now constructor.
    + simpl. now rewrite app_nil_r.
  - destruct (getitem_in_range lines i Hi) as (raw & Hraw & _).
    destruct (scan_step_chunk lines i raw Hraw) as (i1 & Hw & _ & _ & Hs).
    rewrite Hs.
    destruct (chunk_blocks _ (chunk lines i i1)) as [blocks|e|] eqn:E;
      cbn [bind]; try discriminate.
    intros Hrest. destruct (IH _ _ _ Hrest) as (segs & Hsegs & ->).
    exists (Segment i i1 blocks :: segs). split.
    + now apply (segments_step lines i i1 raw).
    + cbn [map concat seg_blocks]. now rewrite <- app_assoc.
  - intros H. inversion H. exists []. split.
    + now constructor.
    + simpl. now rewrite app_nil_r.
Qed.

(** The segments of a scan lie one after the other: a later segment
    starts at or after the line where an earlier one stopped. *)
Lemma segments_start_bound {R : Renderer} (lines : list str) (i : nat)
  (segs : list segment) :
  segments lines i segs ->
  forall s, In s segs -> i <= seg_start s /\ seg_start s < seg_stop s.
Proof.
  induction 1 as [i Hi|i i' raw blocks rest Hraw Hw Hblocks Hrest IH];
    intros s Hs; [destruct Hs|].
  pose proof (block_width_positive _ _ _ Hraw) as Hpos.
  destruct Hs as [<-|Hs]; [simpl; lia|].
  specialize (IH s Hs). lia.
Qed.

Lemma segments_disjoint {R : Renderer} (lines : list str) (i : nat)
  (segs : list segment) :
  segments lines i segs ->
  forall before s1 between s2 after,
    segs = before ++ s1 :: between ++ s2 :: after ->
    seg_stop s1 <= seg_start s2.
Proof.
  induction 1 as [i Hi|i i' raw blocks rest Hraw Hw Hblocks Hrest IH];
    intros before s1 between s2 after E.
  - destruct before; discriminate.
  - destruct before as [|b before]; cbn [app] in E; inversion E; subst.
    + cbn [seg_stop].
      apply (segments_start_bound _ _ _ Hrest).
      apply in_or_app. right. now left.
    + eapply IH. reflexivity.
Qed.

(** The blocks of a segment are the blocks of its own lines: the lines
    of one block, from the line where the segment starts. *)
Lemma segments_blocks {R : Renderer} (lines : list str) (i : nat)
  (segs : list segment) :
  segments lines i segs ->
  forall s, In s segs ->
    exists raw,
      nth_error lines (seg_start s) = Some raw
      /\ seg_stop s
         = seg_start s
           + block_width (lookahead_fires lines (seg_start s) (Py.rstrip raw))
               (skipn (seg_start s) lines)
      /\ chunk_blocks (lookahead_fires lines (seg_start s) (Py.rstrip raw))
           (chunk lines (seg_start s) (seg_stop s))
         = Ok (seg_blocks s).
Proof.
  induction 1 as [i Hi|i i' raw blocks rest Hraw Hw Hblocks Hrest IH];
    intros s Hs; [destruct Hs|].
  destruct Hs as [<-|Hs]; [|now apply IH].
  exists raw. cbn [seg_start seg_stop seg_blocks]. now repeat split.
Qed.

(** The scan of a document is determined by its segments: two splits of
    the same document into segments are equal. *)
Lemma segments_unique {R : Renderer} (lines : list str) (i : nat)
  (segs1 : list segment) :
  segments lines i segs1 ->
  forall segs2, segments lines i segs2 -> segs1 = segs2.
Proof.
  induction 1 as [i Hi|i i' raw blocks rest Hraw Hw Hblocks Hrest IH];
    intros segs2 H2.
  - inversion H2 as [|? ? raw2 ? ? Hraw2]; subst; [reflexivity|].
    apply nth_error_None in Hi. congruence.
  - inversion H2 as [j Hj|? j' raw2 blocks2 rest2 Hraw2 Hw2 Hblocks2 Hrest2];
      subst.
    + apply nth_error_None in Hj. congruence.
    + assert (raw2 = raw) by congruence. subst raw2.
      assert (blocks2 = blocks) by congruence. subst blocks2.
      f_equal. now apply IH.
Qed.

(** A scan that returns for the renderer that accepts every text
    returns the same story for a renderer that accepts the paragraphs of
    that story. *)
Lemma scan_loop_transfer {R : Renderer} (lines : list str) :
  forall fuel i story story',
    scan_loop (R := accept_all) fuel lines i story = Ok story' ->
    (forall more, story' = story ++ more ->
                  forallb block_accepted more = true) ->
    scan_loop fuel lines i story = Ok story'.
Proof.
  induction fuel as [|fuel IH]; intros i story story';
    rewrite !scan_loop_unfold;
    destruct (Nat.ltb_spec i (length lines)) as [Hi|Hi];
    try discriminate; try (now intros H _).
  destruct (getitem_in_range lines i Hi) as (raw & Hraw & _).
  destruct (scan_step_chunk (R := accept_all) lines i raw Hraw)
    as (i1 & -> & _ & _ & Hs1).
  destruct (scan_step_chunk lines i raw Hraw) as (i2 & -> & _ & _ & Hs2).
  rewrite Hs1, Hs2.
  destruct (chunk_blocks (R := accept_all) _ _) as [blocks|e|] eqn:E;
    cbn [bind]; try discriminate.
  intros Hrest Hmore.
  destruct (scan_loop_segments _ _ _ _ _ Hrest) as (segs & _ & Hstory).
  rewrite <- app_assoc in Hstory.
  pose proof (Hmore _ Hstory) as Hacc.
  rewrite forallb_app in Hacc. apply andb_true_iff in Hacc.
  destruct Hacc as [Hblocks _].
  rewrite (chunk_blocks_transfer _ _ _ E Hblocks). cbn [bind].
  apply IH; [assumption|].
  intros more Hm. rewrite <- app_assoc in Hm.
  specialize (Hmore _ Hm). rewrite forallb_app in Hmore.
  apply andb_true_iff in Hmore. tauto.
Qed.

Lemma scan_transfer {R : Renderer} (lines : list str)
  (story : list flowable) :
  parse_markdown_to_pdf (R := accept_all) lines = Ok story ->
  forallb block_accepted story = true ->
  parse_markdown_to_pdf lines = Ok story.
Proof.
  intros H Hacc. apply scan_loop_transfer; [assumption|].
  now intros more ->.
Qed.

(** C8. The story of a scan that returns is the concatenation, in order,
    of the blocks of its iterations.  The iterations consume consecutive,
    pairwise disjoint runs of lines that start at line 0 and move
    forward, each run being the lines of one block (one line, a fence
    with its body and closing fence, or a run of table lines), and the
    blocks of an iteration are the blocks of its own run of lines, read on
    its own; so a later block always comes from later lines and no line
    is consumed twice.  The document has no other split of this kind.
    When the renderer accepts its four paragraphs, the four-line document
    of the scenario yields a Title, then a spacer, a rule and a
    SectionHeading, then a ListItem, then the Paragraph
    [plain text with <b>bold</b>]. *)
Theorem blocks_in_line_order {R : Renderer} :
  (forall lines story,
      parse_markdown_to_pdf lines = Ok story ->
      exists segs,
        segments lines 0 segs
        /\ story = concat (map seg_blocks segs)
        /\ (forall s, In s segs -> seg_start s < seg_stop s)
        /\ (forall s, In s segs ->
              exists raw,
                nth_error lines (seg_start s) = Some raw
                /\ seg_stop s
                   = seg_start s
                     + block_width
                         (lookahead_fires lines (seg_start s) (Py.rstrip raw))
                         (skipn (seg_start s) lines)
                /\ chunk_blocks
                     (lookahead_fires lines (seg_start s) (Py.rstrip raw))
                     (chunk lines (seg_start s) (seg_stop s))
                   = Ok (seg_blocks s))
        /\ (forall before s1 between s2 after,
               segs = before ++ s1 :: between ++ s2 :: after ->
               seg_stop s1 <= seg_start s2)
        /\ (forall segs', segments lines 0 segs' -> segs' = segs))
  /\ (accepts (lit "Title") DocTitle = true ->
      accepts (lit "Section") H2 = true ->
      accepts (lit "&bull; item one") BulletItem = true ->
      accepts (lit "plain text with <b>bold</b>") BodyText2 = true ->
      parse_markdown_to_pdf four_line_document
      = Ok [Paragraph "Title" DocTitle;
            Spacer 1 (3 * mm);
            HRFlowable "100%" 1 heading_rule_color;
            Paragraph "Section" H2;
            Paragraph "&bull; item one" BulletItem;
            Paragraph "plain text with <b>bold</b>" BodyText2]).
Proof.
  split.
  - intros lines story H. unfold parse_markdown_to_pdf in H.
    destruct (scan_loop_segments _ _ _ _ _ H) as (segs & Hsegs & ->).
    exists segs. split; [assumption|]. split; [reflexivity|].
    split; [|split; [|split]].
    + intros s Hs. now apply (segments_start_bound _ _ _ Hsegs).
    + now apply (segments_blocks _ _ _ Hsegs).
    + now apply (segments_disjoint _ _ _ Hsegs).
    + intros segs' Hsegs'. now apply (segments_unique _ _ _ Hsegs').
  - intros A1 A2 A3 A4.
    apply scan_transfer; [vm_compute; reflexivity|].
    cbn [forallb block_accepted]. now rewrite A1, A2, A3, A4.
Qed.

Lemma blocks_in_line_order_witness :
  exists segs,
    segments (R := accept_all) four_line_document 0 segs
    /\ [Paragraph "Title" DocTitle;
        Spacer 1 (3 * mm);
        HRFlowable "100%" 1 heading_rule_color;
        Paragraph "Section" H2;
        Paragraph "&bull; item one" BulletItem;
        Paragraph "plain text with <b>bold</b>" BodyText2]
       = concat (map seg_blocks segs).
Proof.
  destruct (proj1 (@blocks_in_line_order accept_all) four_line_document _
              (proj2 (@blocks_in_line_order accept_all)
                 eq_refl eq_refl eq_refl eq_refl))
    as (segs & Hsegs & Hstory & _).
  exists segs. split; assumption.
Defined.
(** ** Fenced code blocks *)

Lemma prefix_while_all {A} (p : A -> bool) (l rest : list A) :
  Forall (fun x => p x = true) l ->
  prefix_while p (l ++ rest) = l ++ prefix_while p rest.
Proof.
  induction 1 as [|x l Hx Hl IH]; [reflexivity|].
  simpl. now rewrite Hx, IH.
Qed.

Lemma prefix_while_id {A} (p : A -> bool) (l : list A) :
  Forall (fun x => p x = true) l -> prefix_while p l = l.
Proof.
  intros H. rewrite <- (app_nil_r l) at 1.
  rewrite (prefix_while_all _ _ _ H). apply app_nil_r.
Qed.

Lemma skipn_exact {A} (p r : list A) : skipn (length p) (p ++ r) = r.
Proof. induction p; simpl; auto. Qed.

Lemma firstn_exact {A} (p r : list A) : firstn (length p) (p ++ r) = p.
Proof. induction p; simpl; [reflexivity|now f_equal]. Qed.

Lemma nth_error_middle {A} (pre : list A) (x : A) (post : list A) :
  nth_error (pre ++ x :: post) (length pre) = Some x.
Proof. induction pre; simpl; auto. Qed.

Lemma skipn_middle {A} (pre : list A) (x : A) (post : list A) :
  skipn (length pre + 1) (pre ++ x :: post) = post.
Proof. induction pre; simpl; auto. Qed.

(** [rstrip] removes a suffix of white space and nothing else. *)
Lemma rstrip_split (s : str) :
  exists w, s = Py.rstrip s ++ w /\ forallb Py.isspace w = true.
Proof.
  induction s as [|c s (w & Hs & Hw)]; [now exists []|].
  cbn [Py.rstrip]. destruct (Py.rstrip s) as [|y r] eqn:E.
  - destruct (Py.isspace c) eqn:Hc.
    + exists (c :: w). split; [now rewrite Hs at 1|].
      simpl. now rewrite Hc.
    + exists w. split; [now rewrite Hs at 1|assumption].
  - exists w. split; [|assumption]. rewrite Hs at 1. reflexivity.
Qed.

(** C4, as the code has it.  An iteration on a line that opens a fence
    emits one preformatted block whose text is the lines strictly between
    the opening fence and the closing one (the first later line whose
    stripped form starts with three backticks), each without ALL its
    trailing white space, joined by newlines.  [format_inline] is not
    applied.  The cursor moves past the closing fence.  Without a closing
    fence the block runs to the last line and the iteration returns all
    the same. *)
Theorem fence_block_content {R : Renderer} (pre : list str) (opening : str)
  (body : list str) (story : list flowable) :
  Py.startswith fence (Py.rstrip opening) = true ->
  Forall (fun l => code_line l = true) body ->
  let block :=
    Preformatted (Py.join [Re.newline] (map Py.rstrip body)) CodeBlock in
  (forall closing post,
      code_line closing = false ->
      scan_step (pre ++ opening :: body ++ closing :: post) (length pre) story
      = Ok (length pre + length body + 2, story ++ [block]))
  /\ scan_step (pre ++ opening :: body) (length pre) story
     = Ok (length pre + length body + 2, story ++ [block])
  /\ (forall l, In l body ->
        exists w, l = Py.rstrip l ++ w /\ forallb Py.isspace w = true).
Proof.
  intros Hopen Hbody block. subst block. repeat split.
  - intros closing post Hclose.
    rewrite (scan_step_fence _ _ _ _ (nth_error_middle _ _ _) Hopen).
    cbv zeta. rewrite skipn_middle, (prefix_while_all _ _ _ Hbody).
    cbn [prefix_while]. rewrite Hclose, app_nil_r.
    f_equal. f_equal. lia.
  - rewrite (scan_step_fence _ _ _ _ (nth_error_middle _ _ _) Hopen).
    cbv zeta. rewrite skipn_middle, (prefix_while_id _ _ Hbody).
    f_equal. f_equal. lia.
  - intros l _. apply rstrip_split.
Qed.

Lemma fence_block_content_witness :
  scan_step (R := accept_all) fence_with_markers 0 []
  = Ok (4, [Preformatted
              (lit "x = *a* + `b`" ++ [Re.newline] ++ lit "# not a heading")
              CodeBlock])
  /\ scan_step (R := accept_all) open_fence 0 []
     = Ok (3, [Preformatted "x = 1" CodeBlock]).
Proof.
  split.
  - refine (proj1 (@fence_block_content accept_all []
                     (ln "```") [ln "x = *a* + `b`"; ln "# not a heading"] []
                     _ _) (ln "```") [ln "after"] _).
    + reflexivity.
    + repeat constructor.
    + reflexivity.
  - refine (proj1 (proj2 (@fence_block_content accept_all []
                            (ln "```") [ln "x = 1"] [] _ _))).
    + reflexivity.
    + repeat constructor.
Defined.

(** The claim C4 as written fails on a code line that ends in spaces:
    the emitted text is [a], newline, [b], while the lines between the
    fences, joined after trailing-newline normalization only, are [a]
    and two spaces, newline, [b]. *)
Lemma fence_drops_trailing_spaces :
  parse_markdown_to_pdf (R := accept_all) trailing_space_fence
  = Ok [Preformatted (lit "a" ++ [Re.newline] ++ lit "b") CodeBlock]
  /\ Py.join [Re.newline] (map rstrip_newlines [ln "a  "; ln "b"])
     = lit "a  " ++ [Re.newline] ++ lit "b"
  /\ lit "a" ++ [Re.newline] ++ lit "b"
     <> Py.join [Re.newline] (map rstrip_newlines [ln "a  "; ln "b"]).
Proof.
  split; [vm_compute; reflexivity|].
  split; [vm_compute; reflexivity|].
  vm_compute. discriminate.
Qed.

(** ** Table rows *)

Lemma forallb_map {A B} (f : A -> B) (p : B -> bool) (l : list A) :
  forallb p (map f l) = forallb (fun x => p (f x)) l.
Proof. induction l as [|x l IH]; [reflexivity|]. simpl. now rewrite IH. Qed.

Section Split.

Variable sep : ascii.

Lemma split_not_nil (s : str) : Py.split sep s <> [].
Proof.
  destruct s as [|c s]; simpl; [discriminate|].
  destruct (Ascii.eqb c sep); [discriminate|].
  destruct (Py.split sep s); discriminate.
Qed.

Lemma split_no_sep (f : str) : ~ In sep f -> Py.split sep f = [f].
Proof.
  induction f as [|c f IH]; intros H; [reflexivity|].
  cbn [Py.split].
  destruct (Ascii.eqb c sep) eqn:E.
  - apply Ascii.eqb_eq in E. subst c. exfalso. apply H. now left.
  - rewrite IH; [reflexivity|]. intros Hin. apply H. now right.
Qed.

Lemma split_field (f rest : str) :
  ~ In sep f -> Py.split sep (f ++ sep :: rest) = f :: Py.split sep rest.
Proof.
  induction f as [|c f IH]; intros H.
  - cbn [app Py.split]. now rewrite Ascii.eqb_refl.
  - cbn [app Py.split].
    destruct (Ascii.eqb c sep) eqn:E.
    + apply Ascii.eqb_eq in E. subst c. exfalso. apply H. now left.
    + rewrite IH; [reflexivity|]. intros Hin. apply H. now right.
Qed.

Lemma join_cons (f g : str) (fs : list str) :
  Py.join [sep] (f :: g :: fs) = f ++ sep :: Py.join [sep] (g :: fs).
Proof. reflexivity. Qed.

(** [split] undoes [join] on fields that do not contain the separator. *)
Lemma split_join (f : str) (fs : list str) :
  Forall (fun x => ~ In sep x) (f :: fs) ->
  Py.split sep (Py.join [sep] (f :: fs)) = f :: fs.
Proof.
  revert f; induction fs as [|g fs IH]; intros f H.
  - inversion H; subst. now apply split_no_sep.
  - inversion H; subst.
    rewrite join_cons, split_field by assumption. now rewrite IH.
Qed.

(** [split] returns one field more than there are separators. *)
Lemma split_length (s : str) :
  length (Py.split sep s) = S (count_occ Ascii.ascii_dec s sep).
Proof.
  induction s as [|c s IH]; [reflexivity|].
  cbn [Py.split count_occ].
  destruct (Ascii.eqb c sep) eqn:E.
  - apply Ascii.eqb_eq in E. subst c.
    destruct (Ascii.ascii_dec sep sep); [|congruence].
    simpl. now rewrite IH.
  - apply Ascii.eqb_neq in E.
    destruct (Ascii.ascii_dec c sep); [congruence|].
    rewrite <- IH.
    pose proof (split_not_nil s).
    destruct (Py.split sep s); [congruence|reflexivity].
Qed.

End Split.

Lemma slice_1_m1_inner {A} (a b : A) (l : list A) :
  Py.slice_1_m1 (a :: l ++ [b]) = l.
Proof.
  unfold Py.slice_1_m1, Py.slice. cbn [length skipn].
  rewrite length_app. cbn [length].
  replace (S (length l + 1) - 1 - 1) with (length l + 0) by lia.
  rewrite firstn_app_2. cbn [firstn]. apply app_nil_r.
Qed.

Lemma slice_1_m1_length {A} (l : list A) :
  length (Py.slice_1_m1 l) = length l - 2.
Proof.
  unfold Py.slice_1_m1, Py.slice.
  rewrite length_firstn, length_skipn. lia.
Qed.

Lemma row_cells_length (line : str) :
  length (row_cells line) = count_occ Ascii.ascii_dec line "|"%char - 1.
Proof.
  unfold row_cells.
  rewrite length_map, slice_1_m1_length, split_length. lia.
Qed.

(** C2, as the code has it.  The cells of a table row are the fields of
    the line split on the pipe with the FIRST AND THE LAST FIELD DROPPED,
    empty or not, and the others stripped; a row has one cell less than it
    has pipes.  For three collected lines or more whose first line has
    two pipes at least, [parse_table] returns a table whose first row is
    the header cells, followed by one row for each line from index 2 on;
    the separator line at index 1 is not looked at.  The cells are
    paragraphs that the renderer builds, and the one other outcome is the
    [ValueError] of a cell it refuses.  The iteration of the scanner that
    collects such lines emits that table between two spacers. *)
Theorem table_rows_drop_edge_fields {R : Renderer} :
  (forall (a b : str) (fs : list str),
      Forall (fun f => ~ In "|"%char f) (a :: fs ++ [b]) ->
      row_cells (Py.join "|" (a :: fs ++ [b])) = map Py.strip fs)
  /\ (forall line,
         length (row_cells line)
         = count_occ Ascii.ascii_dec line "|"%char - 1)
  /\ (forall (h sep : str) (rows : list str),
         rows <> [] ->
         2 <= count_occ Ascii.ascii_dec h "|"%char ->
         exists widths,
           parse_table (h :: sep :: rows)
           = (if forallb (cell_ok TableHeader) (row_cells h)
                 && forallb (fun r => forallb (cell_ok TableCell) (row_cells r))
                      rows
              then
                Ok (Some (Table
                            (cell_paragraphs TableHeader (row_cells h)
                             :: map (fun r =>
                                       cell_paragraphs TableCell (row_cells r))
                                  rows)
                            widths))
              else Raise ValueError)
           /\ length widths = length (row_cells h)
           /\ length (cell_paragraphs TableHeader (row_cells h))
              = count_occ Ascii.ascii_dec h "|"%char - 1
           /\ length (map (fun r => cell_paragraphs TableCell (row_cells r)) rows)
              = length rows)
  /\ (forall lines i story (raw sep : str) (rows : list str),
         nth_error lines i = Some raw ->
         taken_before_table (Py.rstrip raw) = false ->
         lookahead_fires lines i (Py.rstrip raw) = true ->
         prefix_while table_line (skipn i lines) = raw :: sep :: rows ->
         rows <> [] ->
         2 <= count_occ Ascii.ascii_dec (Py.rstrip raw) "|"%char ->
         exists widths,
           scan_step lines i story
           = (if forallb (cell_ok TableHeader) (row_cells (Py.rstrip raw))
                 && forallb (fun r =>
                               forallb (cell_ok TableCell)
                                 (row_cells (Py.rstrip r)))
                      rows
              then
                Ok (i + 2 + length rows,
                    story ++
                    [Spacer 1 (2 * mm);
                     Table
                       (cell_paragraphs TableHeader (row_cells (Py.rstrip raw))
                        :: map (fun r =>
                                  cell_paragraphs TableCell
                                    (row_cells (Py.rstrip r)))
                             rows)
                       widths;
                     Spacer 1 (2 * mm)])
              else Raise ValueError)).
Proof.
  split; [|split; [|split]].
  - intros a b fs H. unfold row_cells.
    change (lit "|") with ["|"%char].
    rewrite (split_join "|"%char a (fs ++ [b]) H).
    now rewrite slice_1_m1_inner.
  - apply row_cells_length.
  - intros h sep rows Hrows Hpipes.
    pose proof (parse_table_long h sep rows Hrows) as E.
    pose proof (row_cells_length h) as Hlen.
    destruct (length (row_cells h)) as [|n] eqn:En; [lia|].
    eexists. split; [|split; [|split]].
    + rewrite E, forallb_map. unfold cell_paragraphs. rewrite map_map.
      reflexivity.
    + now rewrite repeat_length.
    + unfold cell_paragraphs. rewrite length_map. lia.
    + now rewrite length_map.
  - intros lines i story raw sep rows Hraw Hbefore Hfires Hcoll Hrows Hpipes.
    rewrite (scan_step_from_table_test _ _ _ _ Hraw Hbefore). cbv zeta.
    rewrite Hfires, Hcoll. cbn [map length].
    assert (Hrows' : map Py.rstrip rows <> [])
      by (destruct rows; [congruence|discriminate]).
    rewrite (parse_table_long _ _ _ Hrows').
    pose proof (row_cells_length (Py.rstrip raw)) as Hlen.
    destruct (length (row_cells (Py.rstrip raw))) as [|n] eqn:En; [lia|].
    rewrite !forallb_map. cbv beta.
    exists (repeat ((A4_width - 50 * mm) / inject_Z (Z.of_nat (S n)))%Q (S n)).
    destruct (forallb (cell_ok TableHeader) (row_cells (Py.rstrip raw)) && _);
      cbn [bind]; [|reflexivity].
    f_equal. f_equal.
    + lia.
    + unfold cell_paragraphs. rewrite !map_map. reflexivity.
Qed.

Lemma table_rows_drop_edge_fields_witness :
  row_cells "a | b | c" = ["b" : str]
  /\ row_cells "| a | b |" = ["a" : str; "b" : str].
Proof.
  split.
  - refine (proj1 (@table_rows_drop_edge_fields accept_all)
              "a " " c" [" b " : str] _).
    repeat constructor; simpl; intros H;
      repeat (destruct H as [H|H]; [discriminate|]); destruct H.
  - refine (proj1 (@table_rows_drop_edge_fields accept_all) "" ""
              [" a " : str; " b " : str] _).
    repeat constructor; simpl; intros H;
      repeat (destruct H as [H|H]; [discriminate|]); destruct H.
Defined.

(** The claim C2 as written fails on a row without the outer pipes: of
    the three fields of [a | b | c] only the middle one is kept, and the
    table built from such rows has one column. *)
Lemma open_edge_fields_are_dropped :
  row_cells "a | b | c" = ["b" : str]
  /\ row_cells "a | b | c" <> ["a" : str; "b" : str; "c" : str]
  /\ exists widths,
       parse_markdown_to_pdf (R := accept_all) open_edge_table
       = Ok [Spacer 1 (2 * mm);
             Table [[Paragraph "b" TableHeader]; [Paragraph "2" TableCell]]
               widths;
             Spacer 1 (2 * mm)].
Proof.
  split; [vm_compute; reflexivity|].
  split; [vm_compute; discriminate|].
  eexists. vm_compute. reflexivity.
Qed.

(** ** [replace] and [re.sub], unfolded *)

Section Replace.

Variables old new : str.

Lemma replace_from_skip (s : str) :
  forall k, Py.replace_from old new k s = Py.replace old new (skipn k s).
Proof.
  induction s as [|c s IH]; intros [|k]; try reflexivity.
  cbn [Py.replace_from skipn]. apply IH.
Qed.

(** At a match the text [new] is written and the cursor jumps over
    [old]; elsewhere one character is copied. *)
Lemma replace_cons (c : ascii) (s : str) :
  Py.replace old new (c :: s)
  = if Py.startswith old (c :: s)
    then new ++ Py.replace old new (skipn (length old - 1) s)
    else c :: Py.replace old new s.
Proof.
  unfold Py.replace at 1. cbn [Py.replace_from].
  destruct (Py.startswith old (c :: s)); [|reflexivity].
  now rewrite replace_from_skip.
Qed.

End Replace.

Section SubSpan.

Variables delim opening closing : str.

Lemma sub_span_from_skip (s : str) :
  forall k,
    Re.sub_span_from delim opening closing k s
    = Re.sub_span delim opening closing (skipn k s).
Proof.
  induction s as [|c s IH]; intros [|k]; try reflexivity.
  cbn [Re.sub_span_from skipn]. apply IH.
Qed.

Lemma sub_span_cons (c : ascii) (s : str) :
  Re.sub_span delim opening closing (c :: s)
  = match Re.match_span delim (c :: s) with
    | Some k =>
        opening ++ firstn k (skipn (length delim) (c :: s)) ++ closing
        ++ Re.sub_span delim opening closing
             (skipn (length delim + k + length delim - 1) s)
    | None => c :: Re.sub_span delim opening closing s
    end.
Proof.
  unfold Re.sub_span at 1. cbn [Re.sub_span_from].
  destruct (Re.match_span delim (c :: s)); [|reflexivity].
  now rewrite sub_span_from_skip.
Qed.

(** What the lazy group takes: one character at least, no newline, and
    the closing delimiter follows it and follows no shorter group. *)
Lemma lazy_dot_plus_spec (s : str) :
  forall k,
    Re.lazy_dot_plus delim s = Some k ->
    1 <= k <= length s
    /\ Py.startswith delim (skipn k s) = true
    /\ ~ In Re.newline (firstn k s)
    /\ (forall j, 1 <= j < k -> Py.startswith delim (skipn j s) = false).
Proof.
  induction s as [|c s IH]; intros k; cbn [Re.lazy_dot_plus];
    [discriminate|].
  destruct (Ascii.eqb c Re.newline) eqn:Hc; [discriminate|].
  apply Ascii.eqb_neq in Hc.
  destruct (Py.startswith delim s) eqn:Hd.
  - intros H. inversion H. subst k. cbn [skipn firstn length].
    split; [lia|]. split; [assumption|]. split.
    + intros [E|[]]. congruence.
    + intros j Hj. lia.
  - destruct (Re.lazy_dot_plus delim s) as [k'|]; [|discriminate].
    intros H. inversion H. subst k.
    destruct (IH k' eq_refl) as (Hk & Hstart & Hnl & Hmin).
    cbn [skipn firstn length].
    split; [lia|]. split; [assumption|]. split.
    + intros [E|Hin]; [congruence|now apply Hnl].
    + intros [|[|j]] Hj; [lia|exact Hd|]. apply (Hmin (S j)). lia.
Qed.

(** A string with no room for a character between two delimiters has no
    match. *)
Lemma match_span_length (s : str) (k : nat) :
  Re.match_span delim s = Some k ->
  length delim + k + length delim <= length s.
Proof.
  unfold Re.match_span.
  destruct (Py.startswith delim s) eqn:Hs; [|discriminate].
  apply startswith_iff in Hs. destruct Hs as [r ->].
  rewrite skipn_exact. intros H. apply lazy_dot_plus_spec in H.
  destruct H as (Hk & Hclose & _).
  apply startswith_iff in Hclose. destruct Hclose as [r' Hr'].
  assert (Hlen : length (skipn k r) = length (delim ++ r'))
    by now rewrite Hr'.
  rewrite length_skipn, length_app in Hlen.
  rewrite length_app. lia.
Qed.

Lemma sub_span_short (s : str) :
  length s <= length delim + length delim ->
  Re.sub_span delim opening closing s = s.
Proof.
  induction s as [|c s IH]; intros Hlen; [reflexivity|].
  rewrite sub_span_cons.
  destruct (Re.match_span delim (c :: s)) as [k|] eqn:E.
  - pose proof (match_span_length _ _ E) as Hroom.
    assert (1 <= k); [|lia].
    unfold Re.match_span in E. revert E.
    destruct (Py.startswith delim (c :: s)); [|discriminate].
    intros E. apply lazy_dot_plus_spec in E. lia.
  - rewrite IH; [reflexivity|]. cbn [length] in Hlen. lia.
Qed.

End SubSpan.

(** ** The span patterns *)

Lemma skipn_pred_cons {A} (n : nat) (c : A) (s : list A) :
  1 <= n -> skipn (n - 1) s = skipn n (c :: s).
Proof. intros H. destruct n; [lia|]. simpl. now rewrite Nat.sub_0_r. Qed.

(** The shape of a string on which a span pattern matches at once. *)
Lemma match_span_shape (delim s : str) (k : nat) :
  Re.match_span delim s = Some k ->
  exists group rest,
    s = delim ++ group ++ delim ++ rest
    /\ length group = k
    /\ 1 <= k
    /\ ~ In Re.newline group
    /\ (forall j, 1 <= j < k ->
          Py.startswith delim (skipn j (group ++ delim ++ rest)) = false).
Proof.
  unfold Re.match_span.
  destruct (Py.startswith delim s) eqn:Hs; [|discriminate].
  apply startswith_iff in Hs. destruct Hs as [r ->].
  rewrite skipn_exact. intros H.
  apply lazy_dot_plus_spec in H. destruct H as (Hk & Hclose & Hnl & Hmin).
  apply startswith_iff in Hclose. destruct Hclose as [rest Hrest].
  exists (firstn k r), rest.
  assert (Hr : r = firstn k r ++ delim ++ rest).
  { rewrite <- Hrest. symmetry. apply firstn_skipn. }
  split; [now rewrite <- Hr|].
  split; [rewrite length_firstn; lia|].
  split; [lia|]. split; [assumption|].
  now rewrite <- Hr.
Qed.

Lemma startswith_prefix (p r : str) : Py.startswith p (p ++ r) = true.
Proof. apply startswith_iff. now exists r. Qed.

(** The lazy group finds the first place, one character or more ahead,
    where the closing delimiter starts. *)
Lemma lazy_dot_plus_complete (delim s : str) :
  forall k,
    1 <= k <= length s ->
    ~ In Re.newline (firstn k s) ->
    Py.startswith delim (skipn k s) = true ->
    (forall j, 1 <= j < k -> Py.startswith delim (skipn j s) = false) ->
    Re.lazy_dot_plus delim s = Some k.
Proof.
  induction s as [|c s IH]; intros k Hk Hnl Hclose Hmin;
    cbn [length] in Hk; [lia|].
  cbn [Re.lazy_dot_plus].
  destruct k as [|k]; [lia|]. cbn [firstn skipn] in *.
  destruct (Ascii.eqb c Re.newline) eqn:Hc.
  { apply Ascii.eqb_eq in Hc. exfalso. apply Hnl. now left. }
  destruct k as [|k].
  - cbn [skipn] in Hclose. now rewrite Hclose.
  - assert (H1 : Py.startswith delim s = false) by (apply (Hmin 1); lia).
    rewrite H1.
    rewrite (IH (S k)); try reflexivity; try lia; try assumption.
    + intros H. apply Hnl. now right.
    + intros j Hj. apply (Hmin (S j)). lia.
Qed.

(** The pattern matches at once on a delimited span whose content has
    one character at least and no newline, when the delimiter starts
    nowhere in the content after its first character. *)
Lemma match_span_complete (delim group rest : str) :
  group <> [] ->
  ~ In Re.newline group ->
  (forall j, 1 <= j < length group ->
             Py.startswith delim (skipn j (group ++ delim ++ rest)) = false) ->
  Re.match_span delim (delim ++ group ++ delim ++ rest)
  = Some (length group).
Proof.
  intros Hne Hnl Hmin.
  assert (Hlen : 1 <= length group)
    by (destruct group; [congruence|simpl; lia]).
  unfold Re.match_span. rewrite startswith_prefix, skipn_exact.
  apply lazy_dot_plus_complete.
  - rewrite length_app. lia.
  - now rewrite firstn_exact.
  - rewrite skipn_exact. apply startswith_prefix.
  - assumption.
Qed.

(** Where the pattern matches, [re.sub] writes the group between the
    opening and the closing markup and goes on after the closing
    delimiter. *)
Lemma sub_span_matched (delim opening closing group rest : str) :
  1 <= length group ->
  Re.match_span delim (delim ++ group ++ delim ++ rest)
  = Some (length group) ->
  Re.sub_span delim opening closing (delim ++ group ++ delim ++ rest)
  = opening ++ group ++ closing ++ Re.sub_span delim opening closing rest.
Proof.
  intros Hlen Hmatch.
  destruct (delim ++ group ++ delim ++ rest) as [|c s] eqn:Hs.
  { destruct delim; [destruct group|]; simpl in *; try discriminate; lia. }
  rewrite sub_span_cons, Hmatch.
  rewrite (skipn_pred_cons _ c s) by lia.
  rewrite <- Hs, skipn_exact, firstn_exact.
  do 3 f_equal.
  rewrite <- !Nat.add_assoc, <- !skipn_skipn.
  now rewrite !skipn_exact.
Qed.

(** C5, as the code has it.  Each span pattern is [delim(.+?)delim]: its
    group takes ONE CHARACTER AT LEAST, none of them a newline, and is
    the shortest such run that the closing delimiter follows.  The
    pattern matches at once exactly on such texts: every match has this
    shape, and every delimited span whose content has one character at
    least, of any kind but a newline, with no closing delimiter starting
    in it after its first character, is matched.  Where the pattern
    matches, [re.sub] writes the group between the opening and the
    closing markup and goes on after the closing delimiter.  A text made
    of two delimiters with nothing between them is too short for a match
    and is left as it is: two backticks stay two backticks, and of four
    asterisks the italic pattern takes the first three, with the second
    as its group. *)
Theorem span_patterns_need_content :
  (forall delim opening closing s k,
      Re.match_span delim s = Some k ->
      exists group rest,
        s = delim ++ group ++ delim ++ rest
        /\ length group = k
        /\ 1 <= k
        /\ ~ In Re.newline group
        /\ (forall j, 1 <= j < k ->
              Py.startswith delim (skipn j (group ++ delim ++ rest)) = false)
        /\ Re.sub_span delim opening closing s
           = opening ++ group ++ closing
             ++ Re.sub_span delim opening closing rest)
  /\ (forall delim opening closing group rest,
         group <> [] ->
         ~ In Re.newline group ->
         (forall j, 1 <= j < length group ->
            Py.startswith delim (skipn j (group ++ delim ++ rest)) = false) ->
         Re.match_span delim (delim ++ group ++ delim ++ rest)
         = Some (length group)
         /\ Re.sub_span delim opening closing
              (delim ++ group ++ delim ++ rest)
            = opening ++ group ++ closing
              ++ Re.sub_span delim opening closing rest)
  /\ (forall delim opening closing,
         Re.sub_span delim opening closing (delim ++ delim) = delim ++ delim)
  /\ format_inline "``" = "``"
  /\ format_inline "****" = "<i>*</i>*"
  /\ format_inline "**a**" = "<b>a</b>"
  /\ format_inline "`c`" = font_open ++ lit "c</font>".
Proof.
  split; [|split; [|split; [|split; [|split; [|split]]; vm_compute;
                                    reflexivity]]].
  - intros delim opening closing s k E.
    destruct (match_span_shape _ _ _ E)
      as (group & rest & Hs & Hlen & Hk & Hnl & Hmin).
    exists group, rest. repeat (split; [assumption|]).
    subst s k. now apply sub_span_matched.
  - intros delim opening closing group rest Hne Hnl Hmin.
    pose proof (match_span_complete delim group rest Hne Hnl Hmin) as E.
    split; [assumption|].
    apply sub_span_matched; [|assumption].
    destruct group; [congruence|simpl; lia].
  - intros delim opening closing. apply sub_span_short.
    rewrite length_app. lia.
Qed.

Lemma span_patterns_need_content_witness :
  Re.sub_span "**" "<b>" "</b>" "**ab** c"
  = lit "<b>" ++ lit "ab" ++ lit "</b>"
    ++ Re.sub_span "**" "<b>" "</b>" " c".
Proof.
  destruct (proj1 span_patterns_need_content "**" "<b>" "</b>" "**ab** c" 2
              eq_refl)
    as (group & rest & Hs & Hlen & _ & _ & _ & Hsub).
  change (lit "**ab** c") with (lit "**" ++ lit "ab" ++ lit "**" ++ lit " c")
    in Hs.
  apply app_inv_head in Hs.
  destruct group as [|g0 [|g1 [|g2 group]]]; try discriminate Hlen.
  inversion Hs. subst. exact Hsub.
Defined.

(** The claim C5 as written fails on an empty span: two backticks are
    left as the two delimiter characters, and four asterisks do not turn
    into an empty bold span. *)
Lemma empty_span_is_not_rewritten :
  format_inline "``" = "``"
  /\ format_inline "``" <> font_open ++ lit "</font>"
  /\ format_inline "****" = "<i>*</i>*"
  /\ format_inline "****" <> "<b></b>".
Proof.
  split; [vm_compute; reflexivity|].
  split; [vm_compute; discriminate|].
  split; [vm_compute; reflexivity|].
  vm_compute; discriminate.
Qed.

(** ** Escaping and un-escaping of angle brackets *)

Lemma format_inline_stages (text : str) :
  format_inline text
  = unescape_tags (escape_angle (inline_spans (Py.replace "&" "&amp;" text))).
Proof. reflexivity. Qed.

(** [replace] of a one-character string works character by character. *)
Lemma replace_char (c : ascii) (new s : str) :
  Py.replace [c] new s
  = flat_map (fun x => if Ascii.eqb c x then new else [x]) s.
Proof.
  induction s as [|x s IH]; [reflexivity|].
  rewrite replace_cons. cbn [Py.startswith length Nat.sub skipn flat_map].
  rewrite andb_true_r, IH. now destruct (Ascii.eqb c x).
Qed.

Lemma replace_char_removes (c : ascii) (new s : str) :
  ~ In c new -> ~ In c (Py.replace [c] new s).
Proof.
  intros Hnew. rewrite replace_char. intros H.
  apply in_flat_map in H. destruct H as (x & _ & Hx).
  destruct (Ascii.eqb c x) eqn:E; [now apply Hnew|].
  apply Ascii.eqb_neq in E. destruct Hx as [->|[]]. congruence.
Qed.

Lemma replace_char_keeps_out (c d : ascii) (new s : str) :
  ~ In d new -> ~ In d s -> ~ In d (Py.replace [c] new s).
Proof.
  intros Hnew Hs. rewrite replace_char. intros H.
  apply in_flat_map in H. destruct H as (x & Hin & Hx).
  destruct (Ascii.eqb c x); [now apply Hnew|].
  destruct Hx as [->|[]]. now apply Hs.
Qed.

(** After the escaping stage no angle bracket is left. *)
Lemma escape_angle_no_angle (text : str) :
  ~ In "<"%char (escape_angle text) /\ ~ In ">"%char (escape_angle text).
Proof.
  unfold escape_angle. split.
  - apply (replace_char_keeps_out ">" "<" "&gt;").
    + simpl. intuition discriminate.
    + apply (replace_char_removes "<" "&lt;").
      simpl. intuition discriminate.
  - apply (replace_char_removes ">" "&gt;").
    simpl. intuition discriminate.
Qed.

Lemma no_angle_opens_tags (s : str) :
  ~ In "<"%char s -> angles_open_tags s = true.
Proof.
  induction s as [|c s IH]; intros H; [reflexivity|].
  cbn [angles_open_tags].
  destruct (Ascii.eqb c "<") eqn:E.
  - apply Ascii.eqb_eq in E. subst c. exfalso. apply H. now left.
  - apply IH. intros Hin. apply H. now right.
Qed.

Lemma angles_open_tags_tail (c : ascii) (s : str) :
  angles_open_tags (c :: s) = true -> angles_open_tags s = true.
Proof. cbn [angles_open_tags]. intros H. now apply andb_true_iff in H. Qed.

Lemma angles_open_tags_skipn (s : str) :
  forall k, angles_open_tags s = true -> angles_open_tags (skipn k s) = true.
Proof.
  induction s as [|c s IH]; intros [|k] H; try assumption; try reflexivity.
  cbn [skipn]. apply IH. now apply angles_open_tags_tail with c.
Qed.

(** Every tag is [<] followed by characters among which there is no [&]. *)
Lemma tags_shape (t : str) :
  In t tags -> exists t', t = "<"%char :: t' /\ ~ In "&"%char t'.
Proof.
  unfold tags. simpl.
  intros H.
  repeat (destruct H as [<-|H];
          [eexists; split; [reflexivity|simpl; intuition discriminate]|]).
  destruct H.
Qed.

(** A tag that starts at a [<] still starts there when the text after
    the [<] changes in a way that keeps every prefix without [&]. *)
Lemma tag_start_transfer (s1 s2 : str) :
  (forall t, ~ In "&"%char t ->
             Py.startswith t s1 = true -> Py.startswith t s2 = true) ->
  tag_start ("<"%char :: s1) = true -> tag_start ("<"%char :: s2) = true.
Proof.
  intros Hkeep H. unfold tag_start in *.
  apply existsb_exists in H. destruct H as (t & Ht & Hstart).
  apply existsb_exists. exists t. split; [assumption|].
  destruct (tags_shape t Ht) as (t' & -> & Hamp).
  cbn [Py.startswith] in *. rewrite Ascii.eqb_refl in *. cbn [andb] in *.
  now apply Hkeep.
Qed.

Lemma angles_open_tags_cons (c : ascii) (s1 s2 : str) :
  (forall t, ~ In "&"%char t ->
             Py.startswith t s1 = true -> Py.startswith t s2 = true) ->
  angles_open_tags (c :: s1) = true ->
  angles_open_tags s2 = true ->
  angles_open_tags (c :: s2) = true.
Proof.
  intros Hkeep H1 H2. cbn [angles_open_tags] in *.
  apply andb_true_iff in H1. destruct H1 as [H1 _].
  rewrite H2, andb_true_r.
  destruct (Ascii.eqb c "<") eqn:E; [|reflexivity].
  apply Ascii.eqb_eq in E. subst c. now apply tag_start_transfer with s1.
Qed.

Lemma startswith_before_amp (t a r z : str) :
  ~ In "&"%char t ->
  Py.startswith t (a ++ "&"%char :: r) = true ->
  Py.startswith t (a ++ z) = true.
Proof.
  revert a; induction t as [|x t IH]; intros a Hamp H; [reflexivity|].
  destruct a as [|y a]; cbn [app Py.startswith] in *.
  - apply andb_true_iff in H. destruct H as [H _].
    apply Ascii.eqb_eq in H. subst x. exfalso. apply Hamp. now left.
  - apply andb_true_iff in H. destruct H as [Hxy H].
    rewrite Hxy. cbn [andb]. apply IH; [|assumption].
    intros Hin. apply Hamp. now right.
Qed.

(** A run without [&] that ends at an [&] keeps its tags when the text
    after it is replaced. *)
Lemma angles_open_tags_before_amp (a r z : str) :
  ~ In "&"%char a ->
  angles_open_tags (a ++ "&"%char :: r) = true ->
  angles_open_tags z = true ->
  angles_open_tags (a ++ z) = true.
Proof.
  induction a as [|c a IH]; intros Hamp H Hz; [assumption|].
  cbn [app] in *.
  apply angles_open_tags_cons with (a ++ "&"%char :: r).
  - intros t Ht. apply startswith_before_amp. exact Ht.
  - assumption.
  - apply IH; [|now apply angles_open_tags_tail with c|assumption].
    intros Hin. apply Hamp. now right.
Qed.

Section UnescapeReplace.

Variables old new : str.
Hypothesis old_amp : exists old', old = "&"%char :: old'.
Hypothesis new_tag :
  forall x, angles_open_tags x = true -> angles_open_tags (new ++ x) = true.

(** No match of [old] starts inside a prefix without [&]. *)
Lemma replace_keeps_prefix (t : str) :
  forall s,
    ~ In "&"%char t ->
    Py.startswith t s = true ->
    Py.startswith t (Py.replace old new s) = true.
Proof.
  destruct old_amp as [old' Hold].
  induction t as [|x t IH]; intros s Hamp H; [reflexivity|].
  destruct s as [|y s]; cbn [Py.startswith] in H; [discriminate|].
  apply andb_true_iff in H. destruct H as [Hxy H].
  apply Ascii.eqb_eq in Hxy. subst y.
  rewrite replace_cons.
  replace (Py.startswith old (x :: s)) with false.
  - cbn [Py.startswith]. rewrite Ascii.eqb_refl. cbn [andb].
    apply IH; [|assumption]. intros Hin. apply Hamp. now right.
  - rewrite Hold. cbn [Py.startswith].
    destruct (Ascii.eqb "&" x) eqn:E; [|reflexivity].
    apply Ascii.eqb_eq in E. subst x. exfalso. apply Hamp. now left.
Qed.

Lemma replace_angles_bounded :
  forall n s,
    length s <= n ->
    angles_open_tags s = true ->
    angles_open_tags (Py.replace old new s) = true.
Proof.
  induction n as [|n IH]; intros [|c s] Hlen H; try reflexivity;
    cbn [length] in Hlen; [lia|].
  rewrite replace_cons.
  pose proof (angles_open_tags_tail _ _ H) as Htail.
  destruct (Py.startswith old (c :: s)).
  - apply new_tag. apply IH.
    + rewrite length_skipn. lia.
    + now apply angles_open_tags_skipn.
  - apply angles_open_tags_cons with s.
    + intros t Ht. now apply replace_keeps_prefix.
    + assumption.
    + apply IH; [lia|assumption].
Qed.

(** An un-escaping [replace] keeps the property that every [<] starts a
    tag. *)
Lemma replace_angles (s : str) :
  angles_open_tags s = true ->
  angles_open_tags (Py.replace old new s) = true.
Proof. apply replace_angles_bounded with (length s). lia. Qed.

End UnescapeReplace.

(** ** The font pattern *)

Lemma sub_font_from_skip (s : str) :
  forall k, Re.sub_font_from k s = Re.sub_font (skipn k s).
Proof.
  induction s as [|c s IH]; intros [|k]; try reflexivity.
  cbn [Re.sub_font_from skipn]. apply IH.
Qed.

Lemma sub_font_cons (c : ascii) (s : str) :
  Re.sub_font (c :: s)
  = match Re.match_font (c :: s) with
    | Some k =>
        lit "<" ++ (lit "font" ++ firstn k (skipn 8 (c :: s))) ++ lit ">"
        ++ Re.sub_font (skipn (8 + k + 4 - 1) s)
    | None => c :: Re.sub_font s
    end.
Proof.
  unfold Re.sub_font at 1. cbn [Re.sub_font_from].
  destruct (Re.match_font (c :: s)); [|reflexivity].
  now rewrite sub_font_from_skip.
Qed.

Lemma not_amp_run_split (r : str) :
  ~ In "&"%char (firstn (Re.not_amp_run r) r)
  /\ length (firstn (Re.not_amp_run r) r) = Re.not_amp_run r.
Proof.
  induction r as [|c r [IH1 IH2]]; [split; [intros []|reflexivity]|].
  cbn [Re.not_amp_run].
  destruct (Ascii.eqb c "&") eqn:E; [split; [intros []|reflexivity]|].
  apply Ascii.eqb_neq in E. cbn [firstn length]. split.
  - intros [H|H]; [congruence|now apply IH1].
  - now rewrite IH2.
Qed.

(** The shape of a string on which the font pattern matches at once. *)
Lemma match_font_shape (s : str) (k : nat) :
  Re.match_font s = Some k ->
  exists a rest,
    s = lit "&lt;font" ++ a ++ lit "&gt;" ++ rest
    /\ length a = k
    /\ ~ In "&"%char a.
Proof.
  unfold Re.match_font.
  destruct (Py.startswith "&lt;font" s) eqn:Hs; [|discriminate].
  apply startswith_iff in Hs. destruct Hs as [r ->].
  change (skipn 8 (lit "&lt;font" ++ r)) with r.
  destruct (Py.startswith "&gt;" (skipn (Re.not_amp_run r) r)) eqn:Hc;
    [|discriminate].
  intros H. inversion H. clear H.
  apply startswith_iff in Hc. destruct Hc as [rest Hrest].
  destruct (not_amp_run_split r) as [Hamp Hlen].
  exists (firstn (Re.not_amp_run r) r), rest.
  split; [|split; assumption].
  rewrite <- Hrest. now rewrite firstn_skipn.
Qed.

Lemma skipn_font_match (a rest : str) :
  skipn (8 + length a + 4) (lit "&lt;font" ++ a ++ lit "&gt;" ++ rest) = rest.
Proof.
  replace (8 + length a + 4) with (4 + (length a + 8)) by lia.
  rewrite <- !skipn_skipn.
  change (skipn 8 (lit "&lt;font" ++ a ++ lit "&gt;" ++ rest))
    with (a ++ lit "&gt;" ++ rest).
  now rewrite skipn_exact.
Qed.

Lemma sub_font_keeps_prefix (t : str) :
  forall s,
    ~ In "&"%char t ->
    Py.startswith t s = true ->
    Py.startswith t (Re.sub_font s) = true.
Proof.
  induction t as [|x t IH]; intros s Hamp H; [reflexivity|].
  destruct s as [|y s]; cbn [Py.startswith] in H; [discriminate|].
  apply andb_true_iff in H. destruct H as [Hxy H].
  apply Ascii.eqb_eq in Hxy. subst y.
  rewrite sub_font_cons.
  replace (Re.match_font (x :: s)) with (@None nat).
  - cbn [Py.startswith]. rewrite Ascii.eqb_refl. cbn [andb].
    apply IH; [|assumption]. intros Hin. apply Hamp. now right.
  - unfold Re.match_font.
    change (Py.startswith "&lt;font" (x :: s))
      with (Ascii.eqb "&" x && Py.startswith "lt;font" s).
    destruct (Ascii.eqb "&" x) eqn:E; [|reflexivity].
    apply Ascii.eqb_eq in E. subst x. exfalso. apply Hamp. now left.
Qed.

Lemma sub_font_angles_bounded :
  forall n s,
    length s <= n ->
    angles_open_tags s = true ->
    angles_open_tags (Re.sub_font s) = true.
Proof.
  induction n as [|n IH]; intros [|c s] Hlen H; try reflexivity;
    cbn [length] in Hlen; [lia|].
  rewrite sub_font_cons.
  destruct (Re.match_font (c :: s)) as [k|] eqn:E.
  - destruct (match_font_shape _ _ E) as (a & rest & Hs & Hk & Hamp).
    rewrite (skipn_pred_cons _ c s) by lia.
    rewrite Hs, <- Hk, skipn_font_match.
    change (skipn 8 (lit "&lt;font" ++ a ++ lit "&gt;" ++ rest))
      with (a ++ lit "&gt;" ++ rest).
    rewrite firstn_exact.
    assert (Hsuffix : angles_open_tags (a ++ lit "&gt;" ++ rest) = true).
    { rewrite Hs in H. apply (angles_open_tags_skipn _ 8) in H. exact H. }
    assert (Hrest : angles_open_tags (Re.sub_font rest) = true).
    { apply IH.
      - assert (Hl : length (c :: s)
                     = length (lit "&lt;font" ++ a ++ lit "&gt;" ++ rest))
          by now rewrite Hs.
        rewrite !length_app in Hl.
        change (length (lit "&lt;font")) with 8 in Hl.
        cbn [length] in Hl. lia.
      - rewrite Hs in H.
        apply (angles_open_tags_skipn _ (8 + length a + 4)) in H.
        now rewrite skipn_font_match in H. }
    change (angles_open_tags
              (a ++ lit ">" ++ Re.sub_font rest) = true).
    apply angles_open_tags_before_amp with (lit "gt;" ++ rest);
      assumption.
  - apply angles_open_tags_cons with s.
    + intros t Ht. now apply sub_font_keeps_prefix.
    + assumption.
    + apply IH; [lia|]. now apply angles_open_tags_tail with c.
Qed.

(** Every [<] of the un-escaped text starts a tag. *)
Lemma unescape_tags_angles (escaped : str) :
  ~ In "<"%char escaped -> angles_open_tags (unescape_tags escaped) = true.
Proof.
  intros H. unfold unescape_tags.
  eapply sub_font_angles_bounded; [apply le_n|].
  repeat (apply replace_angles;
          [eexists; reflexivity|intros x Hx; exact Hx|]).
  now apply no_angle_opens_tags.
Qed.

(** C3, as the code has it.  [format_inline] first escapes every [<] and
    [>] of the text, those of the raw line and those of the markup it
    has just written alike, so that no angle bracket is left; the last
    stage then turns the escaped form of [<b>], [</b>], [<i>], [</i>],
    [</font>] and [<font ...>] back into tags WHEREVER it occurs, a
    function of the escaped text alone.  Hence every [<] of the result
    starts one of these tags, and an angle bracket of the raw line that
    is not part of such a tag text is rendered as an entity; but a tag
    typed in the raw line gives the same result as the markup
    [format_inline] writes for a span. *)
Theorem unescape_is_by_tag_text :
  (forall raw,
      let escaped :=
        escape_angle (inline_spans (Py.replace "&" "&amp;" raw)) in
      ~ In "<"%char escaped
      /\ ~ In ">"%char escaped
      /\ format_inline raw = unescape_tags escaped)
  /\ (forall raw, angles_open_tags (format_inline raw) = true)
  /\ format_inline "<d>" = "&lt;d&gt;"
  /\ format_inline "a < b > c" = "a &lt; b &gt; c"
  /\ format_inline "**a** *b* `c` <d>"
     = lit "<b>a</b> <i>b</i> " ++ font_open ++ lit "c</font> &lt;d&gt;"
  /\ format_inline "<b>x</b>" = format_inline "**x**".
Proof.
  split; [|split].
  - intros raw escaped. subst escaped.
    destruct (escape_angle_no_angle
                (inline_spans (Py.replace "&" "&amp;" raw))) as [Hlt Hgt].
    split; [assumption|]. split; [assumption|]. apply format_inline_stages.
  - intros raw. rewrite format_inline_stages.
    apply unescape_tags_angles. apply escape_angle_no_angle.
  - split; [vm_compute; reflexivity|].
    split; [vm_compute; reflexivity|].
    split; vm_compute; reflexivity.
Qed.

(** The claim C3 as written fails on a tag typed in the raw line: the
    texts [<b>] and [<font x>] come out as live tags, not as escaped
    text. *)
Lemma typed_tags_come_out_live :
  format_inline "<b>" = "<b>"
  /\ format_inline "<b>" <> "&lt;b&gt;"
  /\ format_inline "<font x>" = "<font x>"
  /\ format_inline "<font x>" <> "&lt;font x&gt;".
Proof.
  split; [vm_compute; reflexivity|].
  split; [vm_compute; discriminate|].
  split; [vm_compute; reflexivity|].
  vm_compute; discriminate.
Qed.

(** ** Scenarios of the specification *)

(** A rule followed by a line without a pipe is a rule, not a piece of a
    table. *)
Example rule_then_plain_line :
  parse_markdown_to_pdf (R := accept_all) [ln "---"; ln "plain"]
  = Ok [Spacer 1 (3 * mm); HRFlowable "100%" (1 # 2) rule_color;
        Spacer 1 (3 * mm); Paragraph "plain" BodyText2].
Proof. vm_compute. reflexivity. Qed.

(** A table with its outer pipes: two columns, one data row, the
    separator row left out. *)
Example piped_table :
  exists widths,
    parse_markdown_to_pdf (R := accept_all)
      [ln "| a | b |"; ln "|---|---|"; ln "| c | d |"]
    = Ok [Spacer 1 (2 * mm);
          Table [[Paragraph "a" TableHeader; Paragraph "b" TableHeader];
                 [Paragraph "c" TableCell; Paragraph "d" TableCell]]
            widths;
          Spacer 1 (2 * mm)]
    /\ length widths = 2.
Proof. eexists. split; vm_compute; reflexivity. Qed.

(** A heading marker inside a fence is code. *)
Example heading_inside_fence :
  parse_markdown_to_pdf (R := accept_all)
    [ln "```"; ln "# x"; ln "```"; ln "# y"]
  = Ok [Preformatted "# x" CodeBlock; Paragraph "y" DocTitle].
Proof. vm_compute. reflexivity. Qed.

(** A tag typed in the text comes out of [format_inline] as a live tag;
    a renderer that refuses the text ends the scan with [ValueError]. *)
Example refused_paragraph :
  format_inline "<b>" = "<b>"
  /\ parse_markdown_to_pdf (R := accept_plain) [ln "<b>"] = Raise ValueError.
Proof. split; vm_compute; reflexivity. Qed.

(** * Further properties of the code *)

(** ** The outcomes of [parse_table] *)

Lemma parse_table_three_lines (table_lines : list str) :
  3 <= length table_lines ->
  exists h sep r rows, table_lines = h :: sep :: r :: rows.
Proof.
  destruct table_lines as [|h [|sep [|r rows]]]; simpl; try lia.
  intros _. now exists h, sep, r, rows.
Qed.

(** [parse_table] on three lines or more, by the cells that the renderer
    accepts. *)
Lemma parse_table_by_cells {R : Renderer} (table_lines : list str) :
  3 <= length table_lines ->
  parse_table table_lines
  = if cells_ok table_lines then
      match length (row_cells (header_of table_lines)) with
      | O => Raise ZeroDivisionError
      | S _ =>
          Ok (Some (Table
            (cell_paragraphs TableHeader (row_cells (header_of table_lines))
             :: map (cell_paragraphs TableCell)
                  (map row_cells (skipn 2 table_lines)))
            (repeat ((A4_width - 50 * mm)
                     / inject_Z (Z.of_nat
                         (length (row_cells (header_of table_lines)))))%Q
                    (length (row_cells (header_of table_lines))))))
      end
    else Raise ValueError.
Proof.
  intros Hlong.
  destruct (parse_table_three_lines _ Hlong) as (h & sep & r & rows & ->).
  now rewrite (parse_table_long h sep (r :: rows)) by discriminate.
Qed.

(** [parse_table] has four outcomes, decided by the number of lines, by
    what the renderer accepts and by the number of pipes of the first
    line: no table for fewer than three lines; for three lines or more,
    the [ValueError] of a cell that the renderer refuses; the division by
    zero when the cells are accepted and the first line has fewer than
    two pipes; a table in every other case, with one column width for
    each header cell and all widths equal. *)
Theorem parse_table_outcomes {R : Renderer} (table_lines : list str) :
  (parse_table table_lines = Ok None <-> length table_lines < 3)
  /\ (parse_table table_lines = Raise ValueError
      <-> 3 <= length table_lines /\ cells_ok table_lines = false)
  /\ (parse_table table_lines = Raise ZeroDivisionError
      <-> 3 <= length table_lines
          /\ cells_ok table_lines = true
          /\ pipes (header_of table_lines) < 2)
  /\ ((exists t, parse_table table_lines = Ok (Some t))
      <-> 3 <= length table_lines
          /\ cells_ok table_lines = true
          /\ 2 <= pipes (header_of table_lines))
  /\ (forall data widths,
         parse_table table_lines = Ok (Some (Table data widths)) ->
         length widths = pipes (header_of table_lines) - 1
         /\ (forall w, In w widths -> w = hd 0%Q widths)).
Proof.
  destruct (Nat.lt_ge_cases (length table_lines) 3) as [Hshort|Hlong].
  - rewrite (parse_table_short _ Hshort).
    split; [tauto|]. split; [split; [discriminate|lia]|].
    split; [split; [discriminate|lia]|].
    split; [split; [intros [t H]; discriminate|lia]|].
    intros data widths H. discriminate.
  - rewrite (parse_table_by_cells _ Hlong).
    pose proof (row_cells_length (header_of table_lines)) as Hcells.
    fold (pipes (header_of table_lines)) in Hcells.
    destruct (cells_ok table_lines).
    + destruct (length (row_cells (header_of table_lines))) as [|n] eqn:E.
      * split; [split; [discriminate|lia]|].
        split; [split; [discriminate|intros [_ H]; discriminate]|].
        split; [split; [intros _; repeat split; [assumption|lia]|
                        reflexivity]|].
        split; [split; [intros [t H]; discriminate|lia]|].
        intros data widths H. discriminate.
      * split; [split; [discriminate|lia]|].
        split; [split; [discriminate|intros [_ H]; discriminate]|].
        split; [split; [discriminate|lia]|].
        split; [split; [intros _; repeat split; [assumption|lia]|]|].
        -- intros _. eexists. reflexivity.
        -- intros data widths H.
           assert (Hw : widths
                        = repeat ((A4_width - 50 * mm)
                                  / inject_Z (Z.of_nat (S n)))%Q (S n))
             by congruence.
           rewrite Hw. split.
           ++ rewrite repeat_length. lia.
           ++ cbn [repeat hd]. intros w [<-|Hin]; [reflexivity|].
              now apply repeat_spec in Hin.
    + split; [split; [discriminate|lia]|].
      split; [split; [intros _; now split|reflexivity]|].
      split; [split; [discriminate|intros (_ & H & _); discriminate]|].
      split; [split; [intros [t H]; discriminate|
                      intros (_ & H & _); discriminate]|].
      intros data widths H. discriminate.
Qed.

Lemma parse_table_outcomes_witness :
  parse_table (R := accept_all) ["a|b" : str; "---" : str; "c|d" : str]
  = Raise ZeroDivisionError
  /\ parse_table (R := accept_plain)
       ["| <b> |" : str; "|---|" : str; "| c |" : str]
     = Raise ValueError.
Proof.
  split.
  - apply (proj2 (proj1 (proj2 (proj2
             (@parse_table_outcomes accept_all
                ["a|b" : str; "---" : str; "c|d" : str]))))).
    split; [simpl; lia|]. split; [reflexivity|vm_compute; lia].
  - apply (proj2 (proj1 (proj2
             (@parse_table_outcomes accept_plain
                ["| <b> |" : str; "|---|" : str; "| c |" : str])))).
    split; [simpl; lia|vm_compute; reflexivity].
Defined.

(** The rows of a table are not checked against its header: the row
    built from a line has one cell less than the line has pipes, whatever
    the number of header cells, and there is one row for each line after
    the separator. *)
Theorem table_rows_are_not_aligned {R : Renderer} (h sep : str)
  (rows : list str) (data : list (list flowable)) (widths : list Q) :
  parse_table (h :: sep :: rows) = Ok (Some (Table data widths)) ->
  map (@length flowable) data
  = (pipes h - 1) :: map (fun r => pipes r - 1) rows.
Proof.
  destruct rows as [|r rows].
  { rewrite parse_table_short by (simpl; lia). discriminate. }
  rewrite (parse_table_long h sep (r :: rows)) by discriminate.
  destruct (_ && _); [|discriminate].
  destruct (length (row_cells h)) eqn:E; [discriminate|].
  intros H.
  assert (Hd : data
               = cell_paragraphs TableHeader (row_cells h)
                 :: map (cell_paragraphs TableCell)
                      (map row_cells (r :: rows))) by congruence.
  rewrite Hd. clear H Hd.
  unfold cell_paragraphs, pipes.
  cbn [map]. rewrite !length_map, !row_cells_length. do 2 f_equal.
  rewrite !map_map. apply map_ext. intros a.
  now rewrite length_map, row_cells_length.
Qed.

Lemma table_rows_are_not_aligned_witness :
  exists data widths,
    parse_table (R := accept_all)
      ["| a | b |" : str; "|---|---|" : str; "| c |" : str;
       "| d | e | f |" : str]
    = Ok (Some (Table data widths))
    /\ map (@length flowable) data = [2; 1; 3].
Proof.
  destruct (parse_table (R := accept_all)
              ["| a | b |" : str; "|---|---|" : str; "| c |" : str;
               "| d | e | f |" : str])
    as [[[| | | |data widths]|]|e|] eqn:E;
    try (vm_compute in E; discriminate E).
  exists data, widths. split; [reflexivity|].
  exact (@table_rows_are_not_aligned accept_all _ _ _ _ _ E).
Defined.

(** ** The cells of a table row *)

Lemma lstrip_head (s : str) (c : ascii) (t : str) :
  Py.lstrip s = c :: t -> Py.isspace c = false.
Proof.
  induction s as [|x s IH]; simpl; [discriminate|].
  destruct (Py.isspace x) eqn:E; [assumption|].
  intros H. inversion H. now subst.
Qed.

Lemma In_lstrip_inv (c : ascii) (s : str) : In c (Py.lstrip s) -> In c s.
Proof.
  induction s as [|x s IH]; simpl; [tauto|].
  destruct (Py.isspace x); [intros H; right; now apply IH|].
  simpl. tauto.
Qed.

Lemma rstrip_head (c : ascii) (s : str) :
  Py.isspace c = false -> exists t, Py.rstrip (c :: s) = c :: t.
Proof.
  intros Hc. cbn [Py.rstrip]. destruct (Py.rstrip s) as [|y r].
  - rewrite Hc. now exists [].
  - now exists (y :: r).
Qed.

Lemma rstrip_last (s : str) (d : ascii) :
  Py.rstrip s <> [] -> Py.isspace (last (Py.rstrip s) d) = false.
Proof.
  induction s as [|c s IH]; [intros H; now destruct H|].
  cbn [Py.rstrip]. destruct (Py.rstrip s) as [|y r] eqn:E.
  - destruct (Py.isspace c) eqn:Hc; [intros H; now destruct H|].
    intros _. exact Hc.
  - intros _. change (last (c :: y :: r) d) with (last (y :: r) d).
    apply IH. discriminate.
Qed.

Lemma strip_head (s : str) (c : ascii) (t : str) :
  Py.strip s = c :: t -> Py.isspace c = false.
Proof.
  unfold Py.strip. destruct (Py.lstrip s) as [|x r] eqn:E; [discriminate|].
  pose proof (lstrip_head _ _ _ E) as Hx.
  destruct (rstrip_head x r Hx) as [t' Ht']. rewrite Ht'.
  intros H. inversion H. now subst.
Qed.

Lemma strip_last (s init : str) (x : ascii) :
  Py.strip s = init ++ [x] -> Py.isspace x = false.
Proof.
  unfold Py.strip. intros H.
  assert (Hne : Py.rstrip (Py.lstrip s) <> [])
    by (rewrite H; destruct init; discriminate).
  pose proof (rstrip_last _ x Hne) as Hl.
  now rewrite H, last_last in Hl.
Qed.

Lemma In_strip_inv (c : ascii) (s : str) : In c (Py.strip s) -> In c s.
Proof.
  unfold Py.strip. intros H. now apply In_lstrip_inv, In_rstrip_inv.
Qed.

(** No field of [split] contains the separator. *)
Lemma split_fields_no_sep (sep : ascii) (s : str) :
  forall f, In f (Py.split sep s) -> ~ In sep f.
Proof.
  induction s as [|c s IH]; intros f; cbn [Py.split].
  - intros [<-|[]] [].
  - destruct (Ascii.eqb c sep) eqn:E.
    + intros [<-|H]; [intros []|now apply IH].
    + apply Ascii.eqb_neq in E.
      destruct (Py.split sep s) as [|g gs]; [intros [<-|[]]|].
      * intros [H|[]]. congruence.
      * intros [<-|H].
        -- intros [H|H]; [congruence|]. apply (IH g); [now left|assumption].
        -- apply IH. now right.
Qed.

Lemma In_slice_1_m1 {A} (x : A) (l : list A) :
  In x (Py.slice_1_m1 l) -> In x l.
Proof.
  unfold Py.slice_1_m1, Py.slice. intros H.
  rewrite <- (firstn_skipn 1 l). apply in_or_app. right.
  rewrite <- (firstn_skipn (length l - 1 - 1) (skipn 1 l)).
  apply in_or_app. now left.
Qed.

(** The cells that [parse_table] formats are trimmed and free of pipes:
    no cell of a row begins or ends with a white-space character, and no
    cell contains the pipe. *)
Theorem row_cells_are_trimmed (line cell : str) :
  In cell (row_cells line) ->
  ~ In "|"%char cell
  /\ (forall x rest, cell = x :: rest -> Py.isspace x = false)
  /\ (forall init x, cell = init ++ [x] -> Py.isspace x = false).
Proof.
  unfold row_cells. intros H.
  apply in_map_iff in H. destruct H as (f & <- & Hf).
  split; [|split].
  - intros Hin. apply In_strip_inv in Hin.
    apply In_slice_1_m1 in Hf.
    exact (split_fields_no_sep _ _ _ Hf Hin).
  - intros x rest E. exact (strip_head _ _ _ E).
  - intros init x E. exact (strip_last _ _ _ E).
Qed.

Lemma row_cells_are_trimmed_witness :
  ~ In "|"%char (lit "b c")
  /\ (forall x rest, lit "b c" = x :: rest -> Py.isspace x = false)
  /\ (forall init x, lit "b c" = init ++ [x] -> Py.isspace x = false).
Proof.
  apply (row_cells_are_trimmed "| a |  b c  |").
  vm_compute. right. left. reflexivity.
Defined.

(** ** When the scan raises *)

Lemma count_occ_spaces (w : str) (c : ascii) :
  Py.isspace c = false ->
  forallb Py.isspace w = true ->
  count_occ Ascii.ascii_dec w c = 0.
Proof.
  intros Hc. induction w as [|x w IH]; [reflexivity|].
  cbn [forallb count_occ]. intros H.
  apply andb_true_iff in H. destruct H as [Hx Hw].
  destruct (Ascii.ascii_dec x c) as [->|_]; [congruence|now apply IH].
Qed.

(** [rstrip] does not change the number of pipes of a line. *)
Lemma pipes_rstrip (raw : str) : pipes (Py.rstrip raw) = pipes raw.
Proof.
  unfold pipes. destruct (rstrip_split raw) as (w & Hraw & Hw).
  rewrite Hraw at 2. rewrite count_occ_app.
  rewrite (count_occ_spaces w _ pipe_not_space Hw). lia.
Qed.

Lemma contains_pipe_pipes (line : str) :
  Py.contains "|" line = true <-> 1 <= pipes line.
Proof.
  unfold pipes. rewrite (contains_char_In "|"%char line).
  rewrite (count_occ_In Ascii.ascii_dec). lia.
Qed.

Lemma cells_refused {R : Renderer} (st : style) (cells : list str) :
  forallb (cell_ok st) cells = false -> exists text st, accepts text st = false.
Proof.
  induction cells as [|c cells IH]; [discriminate|].
  cbn [forallb]. intros H. apply andb_false_iff in H.
  destruct H as [H|H]; [|now apply IH].
  now exists (format_inline c), st.
Qed.

Lemma cells_ok_refused {R : Renderer} (table_lines : list str) :
  cells_ok table_lines = false -> exists text st, accepts text st = false.
Proof.
  unfold cells_ok. intros H. apply andb_false_iff in H.
  destruct H as [H|H]; [now apply (cells_refused _ _ H)|].
  induction (map row_cells (skipn 2 table_lines)) as [|r rows IH];
    [discriminate|].
  cbn [forallb] in H. apply andb_false_iff in H.
  destruct H as [H|H]; [now apply (cells_refused _ _ H)|now apply IH].
Qed.

Lemma cells_ok_all {R : Renderer} (table_lines : list str) :
  (forall text st, accepts text st = true) -> cells_ok table_lines = true.
Proof.
  intros Hall. unfold cells_ok.
  assert (Hcells : forall st cells, forallb (cell_ok st) cells = true).
  { intros st cells. apply forallb_forall. intros c _. apply Hall. }
  rewrite Hcells. cbn [andb].
  apply forallb_forall. intros cells _. apply Hcells.
Qed.

(** What [parse_table] raises: the [ValueError] of a cell that the
    renderer refuses, or the division by zero. *)
Lemma parse_table_raises {R : Renderer} (table_lines : list str) (e : exn) :
  parse_table table_lines = Raise e
  <-> 3 <= length table_lines
      /\ (if cells_ok table_lines
          then e = ZeroDivisionError /\ pipes (header_of table_lines) < 2
          else e = ValueError).
Proof.
  destruct (Nat.lt_ge_cases (length table_lines) 3) as [Hshort|Hlong].
  - rewrite (parse_table_short _ Hshort). split; [discriminate|lia].
  - rewrite (parse_table_by_cells _ Hlong).
    pose proof (row_cells_length (header_of table_lines)) as Hcells.
    fold (pipes (header_of table_lines)) in Hcells.
    destruct (cells_ok table_lines).
    + destruct (length (row_cells (header_of table_lines))) as [|n].
      * split.
        -- intros H. split; [assumption|]. split; [congruence|lia].
        -- now intros (_ & -> & _).
      * split; [discriminate|lia].
    + split.
      * intros H. split; [assumption|congruence].
      * now intros (_ & ->).
Qed.

(** A paragraph that is not built is a text that the renderer
    refuses. *)
Lemma new_Paragraph_raises {R : Renderer} {A} (text : str) (st : style)
  (k : flowable -> A) (e : exn) :
  (p <- new_Paragraph text st ;; Ok (k p)) = Raise e ->
  e = ValueError /\ exists text st, accepts text st = false.
Proof.
  unfold new_Paragraph. destruct (accepts text st) eqn:E; cbn [bind];
    [discriminate|].
  intros H. split; [congruence|]. now exists text, st.
Qed.

(** The blocks of a run of lines are not built in two cases: the
    renderer refuses a paragraph, or the run is a table and
    [parse_table] raises. *)
Lemma chunk_blocks_raises {R : Renderer} (table_test : bool) (c : list str)
  (e : exn) :
  chunk_blocks table_test c = Raise e ->
  (e = ValueError /\ exists text st, accepts text st = false)
  \/ (taken_before_table (Py.rstrip (hd [] c)) = false
      /\ table_test = true
      /\ parse_table (map Py.rstrip c) = Raise e).
Proof.
  unfold chunk_blocks. destruct c as [|raw rest]; [discriminate|].
  cbv zeta. cbn [hd]. unfold taken_before_table.
  destruct (Py.is_empty (Py.rstrip raw)); [discriminate|].
  destruct (Py.startswith "# " (Py.rstrip raw));
    [intros H; left; exact (new_Paragraph_raises _ _ _ _ H)|].
  destruct (Py.startswith "## " (Py.rstrip raw));
    [intros H; left; exact (new_Paragraph_raises _ _ _ _ H)|].
  destruct (Py.startswith "### " (Py.rstrip raw));
    [intros H; left; exact (new_Paragraph_raises _ _ _ _ H)|].
  destruct (Py.str_eqb (Py.strip (Py.rstrip raw)) "---"); [discriminate|].
  destruct (Py.startswith fence (Py.rstrip raw)); [discriminate|].
  destruct table_test.
  - destruct (parse_table (map Py.rstrip (raw :: rest))) as [[t|]|e'|];
      cbn [bind]; try discriminate.
    intros H. right. repeat split. congruence.
  - destruct (Py.startswith "- " (Py.rstrip raw));
      intros H; left; exact (new_Paragraph_raises _ _ _ _ H).
Qed.

(** The table branch of an iteration reads the lines it collects. *)
Lemma table_chunk (lines : list str) (i : nat) (raw : str) :
  nth_error lines i = Some raw ->
  taken_before_table (Py.rstrip raw) = false ->
  lookahead_fires lines i (Py.rstrip raw) = true ->
  chunk lines i
    (i + block_width (lookahead_fires lines i (Py.rstrip raw))
           (skipn i lines))
  = prefix_while table_line (skipn i lines).
Proof.
  intros Hraw Hbefore Hfires.
  rewrite (block_width_at _ _ _ Hraw), Hbefore, Hfires.
  destruct (taken_before_table_false _ Hbefore) as (_ & _ & _ & _ & _ & ->).
  cbn [negb andb]. unfold chunk, Py.slice.
  replace (i + length (prefix_while table_line (skipn i lines)) - i)
    with (length (prefix_while table_line (skipn i lines))) by lia.
  apply firstn_prefix_while.
Qed.

(** The pipes of the header row of the collected lines are the pipes of
    the line under the cursor, of which there is one at least. *)
Lemma collected_header_pipes (lines : list str) (i : nat) (raw : str) :
  nth_error lines i = Some raw ->
  lookahead_fires lines i (Py.rstrip raw) = true ->
  pipes (header_of (map Py.rstrip (prefix_while table_line (skipn i lines))))
  = pipes raw
  /\ 1 <= pipes raw.
Proof.
  intros Hraw Hfires. split.
  - rewrite (lookahead_collects _ _ _ Hraw Hfires). apply pipes_rstrip.
  - rewrite <- pipes_rstrip. apply contains_pipe_pipes.
    unfold lookahead_fires in Hfires.
    now apply andb_true_iff in Hfires.
Qed.

Lemma scan_step_raise_cases {R : Renderer} (lines : list str) (i : nat)
  (story : list flowable) (raw : str) (e : exn) :
  nth_error lines i = Some raw ->
  scan_step lines i story = Raise e ->
  (e = ValueError /\ exists text st, accepts text st = false)
  \/ (e = ZeroDivisionError
      /\ taken_before_table (Py.rstrip raw) = false
      /\ lookahead_fires lines i (Py.rstrip raw) = true
      /\ 3 <= length (prefix_while table_line (skipn i lines))
      /\ cells_ok (map Py.rstrip (prefix_while table_line (skipn i lines)))
         = true
      /\ pipes raw = 1).
Proof.
  intros Hraw.
  destruct (scan_step_chunk lines i raw Hraw) as (i' & -> & Hlt & _ & Hs).
  rewrite Hs.
  destruct (chunk_blocks _ _) as [blocks|e'|] eqn:E; cbn [bind];
    try discriminate.
  intros H. assert (e' = e) by congruence. subst e'. clear H.
  apply chunk_blocks_raises in E. destruct E as [E|E]; [now left|].
  rewrite (chunk_cons _ _ _ _ Hraw Hlt) in E. cbn [hd] in E.
  rewrite <- (chunk_cons _ _ _ _ Hraw Hlt) in E.
  destruct E as (Hbefore & Hfires & Hparse).
  rewrite (table_chunk _ _ _ Hraw Hbefore Hfires) in Hparse.
  apply parse_table_raises in Hparse. rewrite length_map in Hparse.
  destruct Hparse as [Hlen Hcase].
  destruct (collected_header_pipes _ _ _ Hraw Hfires) as [Hh Hone].
  destruct (cells_ok _) eqn:Hok.
  - right. destruct Hcase as [-> Hpipes]. rewrite Hh in Hpipes.
    repeat split; try assumption. lia.
  - left. split; [assumption|]. exact (cells_ok_refused _ Hok).
Qed.

(** An iteration on a line raises the division by zero in one case only:
    the table test holds on the line, three lines or more are collected,
    the renderer accepts their cells, and the line, which becomes the
    header row, has exactly one pipe.  Every other exception of an
    iteration is the [ValueError] of a paragraph that the renderer
    refuses. *)
Theorem scan_step_raises_iff {R : Renderer} (lines : list str) (i : nat)
  (story : list flowable) (raw : str) :
  nth_error lines i = Some raw ->
  (scan_step lines i story = Raise ZeroDivisionError
   <-> taken_before_table (Py.rstrip raw) = false
       /\ lookahead_fires lines i (Py.rstrip raw) = true
       /\ 3 <= length (prefix_while table_line (skipn i lines))
       /\ cells_ok (map Py.rstrip (prefix_while table_line (skipn i lines)))
          = true
       /\ pipes raw = 1)
  /\ (forall e,
         scan_step lines i story = Raise e ->
         e = ZeroDivisionError
         \/ (e = ValueError /\ exists text st, accepts text st = false)).
Proof.
  intros Hraw. split; [split|].
  - intros H.
    destruct (scan_step_raise_cases _ _ _ _ _ Hraw H) as [[E _]|(_ & H')];
      [discriminate|assumption].
  - intros (Hbefore & Hfires & Hlen & Hok & Hpipes).
    rewrite (scan_step_from_table_test _ _ _ _ Hraw Hbefore). cbv zeta.
    rewrite Hfires.
    replace (parse_table
               (map Py.rstrip (prefix_while table_line (skipn i lines))))
      with (@Raise (option flowable) ZeroDivisionError); [reflexivity|].
    symmetry. apply parse_table_raises.
    rewrite length_map, Hok.
    destruct (collected_header_pipes _ _ _ Hraw Hfires) as [-> _].
    repeat split; [assumption|lia].
  - intros e H.
    destruct (scan_step_raise_cases _ _ _ _ _ Hraw H) as [E|(-> & _)];
      [now right|now left].
Qed.

Lemma scan_step_raises_iff_witness :
  scan_step (R := accept_all) zero_column_table 0 []
  = Raise ZeroDivisionError.
Proof.
  apply (proj1 (@scan_step_raises_iff accept_all zero_column_table 0 []
                  (ln "a|b") eq_refl)).
  repeat split; reflexivity.
Defined.




(** ** Blank documents *)

Lemma rstrip_blank (s : str) :
  forallb Py.isspace s = true -> Py.rstrip s = [].
Proof.
  induction s as [|c s IH]; [reflexivity|].
  cbn [forallb Py.rstrip]. intros H.
  apply andb_true_iff in H. destruct H as [Hc Hs].
  now rewrite (IH Hs), Hc.
Qed.

Lemma scan_loop_blank {R : Renderer} (lines : list str) :
  Forall (fun l => forallb Py.isspace l = true) lines ->
  forall fuel i story,
    length lines <= i + fuel ->
    scan_loop fuel lines i story = Ok story.
Proof.
  intros Hblank. induction fuel as [|fuel IH]; intros i story Hfuel;
    rewrite scan_loop_unfold;
    destruct (Nat.ltb_spec i (length lines)) as [Hi|Hi];
    try reflexivity; [lia|].
  destruct (getitem_in_range lines i Hi) as (raw & Hraw & Hg).
  unfold scan_step. rewrite Hg. cbn [bind].
  rewrite rstrip_blank.
  - cbn [Py.is_empty bind]. apply IH. lia.
  - rewrite Forall_forall in Hblank. apply Hblank.
    eapply nth_error_In. exact Hraw.
Qed.

(** A document whose lines are all made of white space, the empty
    document among them, gives the empty story: blank lines emit
    nothing. *)
Theorem blank_document_is_empty {R : Renderer} (lines : list str) :
  Forall (fun l => forallb Py.isspace l = true) lines ->
  parse_markdown_to_pdf lines = Ok [].
Proof.
  intros H. unfold parse_markdown_to_pdf.
  apply scan_loop_blank; [assumption|lia].
Qed.

Lemma blank_document_is_empty_witness :
  parse_markdown_to_pdf (R := accept_all)
    [ln ""; ln "   "; [ascii_of_nat 9; Re.newline]]
  = Ok [].
Proof.
  apply (@blank_document_is_empty accept_all). repeat constructor.
Defined.

(** ** What an iteration can emit *)

(** A table that is built has the cells of its rows as paragraphs. *)
Lemma parse_table_shape {R : Renderer} (table_lines : list str)
  (t : flowable) :
  parse_table table_lines = Ok (Some t) ->
  exists header rows widths,
    t = Table (cell_paragraphs TableHeader header
               :: map (cell_paragraphs TableCell) rows) widths.
Proof.
  destruct table_lines as [|h [|sep [|r rows]]];
    try (rewrite parse_table_short by (simpl; lia); discriminate).
  rewrite parse_table_long by discriminate.
  destruct (_ && _); [|discriminate].
  destruct (length (row_cells h)); [discriminate|].
  intros H. eexists. eexists. eexists. symmetry.
  assert (E : forall a b : flowable, Ok (Some a) = Ok (Some b) -> a = b)
    by (intros a b Hab; congruence).
  apply E. exact H.
Qed.

(** The blocks of a run of lines are one of seven groups of
    flowables. *)
Lemma chunk_blocks_emits {R : Renderer} (table_test : bool) (c : list str)
  (blocks : list flowable) :
  chunk_blocks table_test c = Ok blocks -> emitted blocks.
Proof.
  assert (Hpar : forall text st (k : flowable -> list flowable),
             emitted (k (Paragraph text st)) ->
             (p <- new_Paragraph text st ;; Ok (k p)) = Ok blocks ->
             emitted blocks).
  { intros text st k Hk. unfold new_Paragraph.
    destruct (accepts text st); cbn [bind]; [|discriminate].
    intros H. assert (E : k (Paragraph text st) = blocks) by congruence.
    now rewrite <- E. }
  assert (Hok : forall l, emitted l -> Ok l = Ok blocks -> emitted blocks).
  { intros l Hl H. assert (E : l = blocks) by congruence. now rewrite <- E. }
  unfold chunk_blocks. destruct c as [|raw rest];
    [apply Hok; constructor|].
  cbv zeta.
  destruct (Py.is_empty (Py.rstrip raw)); [apply Hok; constructor|].
  destruct (Py.startswith "# " (Py.rstrip raw)).
  { apply (Hpar _ _ (fun p => [p])). constructor. }
  destruct (Py.startswith "## " (Py.rstrip raw)).
  { apply (Hpar _ _ (fun p => [Spacer 1 (3 * mm);
                               HRFlowable "100%" 1 heading_rule_color; p])).
    constructor. }
  destruct (Py.startswith "### " (Py.rstrip raw)).
  { apply (Hpar _ _ (fun p => [p])). constructor. }
  destruct (Py.str_eqb (Py.strip (Py.rstrip raw)) "---");
    [apply Hok; constructor|].
  destruct (Py.startswith fence (Py.rstrip raw)); [apply Hok; constructor|].
  destruct table_test.
  - destruct (parse_table (map Py.rstrip (raw :: rest))) as [[t|]|e|] eqn:Ht;
      cbn [bind]; try discriminate.
    + destruct (parse_table_shape _ _ Ht) as (header & rows & widths & ->).
      apply Hok. constructor.
    + apply Hok. constructor.
  - destruct (Py.startswith "- " (Py.rstrip raw)).
    + apply (Hpar _ _ (fun p => [p])). constructor.
    + apply (Hpar _ _ (fun p => [p])). constructor.
Qed.

(** An iteration that returns has appended one of seven groups of
    flowables to the story. *)
Lemma scan_step_emits {R : Renderer} (lines : list str) (i : nat)
  (story : list flowable) (i' : nat) (story' : list flowable) :
  scan_step lines i story = Ok (i', story') ->
  exists blocks, story' = story ++ blocks /\ emitted blocks.
Proof.
  destruct (nth_error lines i) as [raw|] eqn:Hraw.
  2:{ unfold scan_step, getitem. rewrite Hraw. discriminate. }
  destruct (scan_step_chunk lines i raw Hraw) as (j & _ & _ & _ & Hs).
  rewrite Hs.
  destruct (chunk_blocks _ (chunk lines i j)) as [blocks|e|] eqn:E;
    cbn [bind]; try discriminate.
  intros H. exists blocks. split; [congruence|].
  exact (chunk_blocks_emits _ _ _ E).
Qed.

(** A property of stories that every emitted group keeps holds of the
    story a scan returns. *)
Lemma scan_loop_invariant {R : Renderer} (P : list flowable -> Prop)
  (lines : list str) :
  (forall story blocks, P story -> emitted blocks -> P (story ++ blocks)) ->
  forall fuel i story story',
    P story -> scan_loop fuel lines i story = Ok story' -> P story'.
Proof.
  intros Hkeep. induction fuel as [|fuel IH]; intros i story story' HP;
    rewrite scan_loop_unfold;
    destruct (Nat.ltb_spec i (length lines)) as [Hi|Hi];
    try discriminate; try (intros H; inversion H; now subst).
  destruct (scan_step lines i story) as [[i1 story1]|e|] eqn:Hstep;
    cbn [bind]; try discriminate.
  destruct (scan_step_emits _ _ _ _ _ Hstep) as (blocks & -> & Hblocks).
  apply IH. now apply Hkeep.
Qed.

(** ** Sound markup in every paragraph *)

Lemma format_inline_angles (text : str) :
  angles_open_tags (format_inline text) = true.
Proof.
  rewrite format_inline_stages.
  apply unescape_tags_angles. apply escape_angle_no_angle.
Qed.

Lemma angles_open_tags_app (a b : str) :
  ~ In "<"%char a ->
  angles_open_tags b = true ->
  angles_open_tags (a ++ b) = true.
Proof.
  induction a as [|c a IH]; intros Ha Hb; [assumption|].
  cbn [app angles_open_tags].
  destruct (Ascii.eqb c "<") eqn:E.
  - apply Ascii.eqb_eq in E. subst c. exfalso. apply Ha. now left.
  - apply IH; [|assumption]. intros H. apply Ha. now right.
Qed.

Lemma cell_paragraphs_tags_ok (st : style) (cells : list str) :
  forallb paragraph_tags_ok (cell_paragraphs st cells) = true.
Proof.
  induction cells as [|c cells IH]; [reflexivity|].
  cbn [cell_paragraphs map forallb paragraph_tags_ok].
  rewrite format_inline_angles. exact IH.
Qed.

Lemma emitted_tags_ok (blocks : list flowable) :
  emitted blocks -> forallb block_tags_ok blocks = true.
Proof.
  intros [ |text st|text| |text|header rows widths|text];
    cbn [forallb block_tags_ok andb]; try reflexivity.
  - now rewrite format_inline_angles.
  - now rewrite format_inline_angles.
  - rewrite cell_paragraphs_tags_ok. cbn [andb]. rewrite andb_true_r.
    induction rows as [|r rows IH]; [reflexivity|].
    cbn [map forallb]. now rewrite cell_paragraphs_tags_ok, IH.
  - rewrite andb_true_r. apply angles_open_tags_app.
    + unfold bullet. simpl. intuition discriminate.
    + apply format_inline_angles.
Qed.

(** In the story of a scan, every [<] in the text of a paragraph, the
    cells of the tables included, starts one of the tags that
    [format_inline] writes: no paragraph reaches the renderer with a
    stray [<]. *)
Theorem story_markup_is_sound {R : Renderer} (lines : list str)
  (story : list flowable) :
  parse_markdown_to_pdf lines = Ok story ->
  forallb block_tags_ok story = true.
Proof.
  unfold parse_markdown_to_pdf.
  apply (scan_loop_invariant (fun s => forallb block_tags_ok s = true));
    [|reflexivity].
  intros s blocks Hs Hblocks.
  now rewrite forallb_app, Hs, (emitted_tags_ok _ Hblocks).
Qed.

Lemma story_markup_is_sound_witness :
  forallb block_tags_ok
    [Paragraph "a &lt; b and <b>c</b>" BodyText2] = true.
Proof.
  apply (@story_markup_is_sound accept_all [ln "a < b and **c**"]).
  vm_compute. reflexivity.
Defined.

(** ** The size of the story *)

Lemma emitted_length (blocks : list flowable) :
  emitted blocks -> length blocks <= 3.
Proof. intros []; simpl; lia. Qed.

Lemma scan_loop_size {R : Renderer} (lines : list str) :
  forall fuel i story story',
    scan_loop fuel lines i story = Ok story' ->
    length story' <= length story + 3 * (length lines - i).
Proof.
  induction fuel as [|fuel IH]; intros i story story';
    rewrite scan_loop_unfold;
    destruct (Nat.ltb_spec i (length lines)) as [Hi|Hi];
    try discriminate; try (intros H; inversion H; subst; lia).
  pose proof (scan_step_outcome lines i story Hi) as Hout.
  destruct (scan_step lines i story) as [[i1 story1]|e|] eqn:Hstep;
    cbn [bind]; try discriminate.
  destruct Hout as [Hlt _].
  destruct (scan_step_emits _ _ _ _ _ Hstep) as (blocks & -> & Hblocks).
  intros Hrest. apply IH in Hrest.
  apply emitted_length in Hblocks.
  rewrite length_app in Hrest. lia.
Qed.

(** The story of a scan has three flowables for each line of the
    document at most. *)
Theorem story_size_bound {R : Renderer} (lines : list str)
  (story : list flowable) :
  parse_markdown_to_pdf lines = Ok story ->
  length story <= 3 * length lines.
Proof.
  unfold parse_markdown_to_pdf. intros H.
  apply scan_loop_size in H. simpl in H. lia.
Qed.

Lemma story_size_bound_witness :
  length [Spacer 1 (3 * mm); HRFlowable "100%" 1 heading_rule_color;
          Paragraph "a" H2;
          Spacer 1 (3 * mm); HRFlowable "100%" 1 heading_rule_color;
          Paragraph "b" H2]
  <= 3 * length [ln "## a"; ln "## b"].
Proof.
  apply (@story_size_bound accept_all [ln "## a"; ln "## b"]).
  vm_compute. reflexivity.
Defined.

(** ** Rules *)

Lemma strip_first (s : str) (x : ascii) (t : str) :
  Py.strip s = x :: t ->
  exists c s', s = c :: s' /\ (Py.isspace c = true \/ c = x).
Proof.
  destruct s as [|c s']; [discriminate|].
  intros H. exists c, s'. split; [reflexivity|].
  destruct (Py.isspace c) eqn:Hc; [now left|right].
  unfold Py.strip in H. cbn [Py.lstrip] in H. rewrite Hc in H.
  destruct (rstrip_head c s' Hc) as [r Hr]. rewrite Hr in H.
  now inversion H.
Qed.

(** A line that is [---] between any white space is a horizontal rule,
    whatever the lines around it are: the rule test stands before the
    table test, so that a rule line is never taken for the first line of
    a table. *)
Theorem rule_line_is_a_rule {R : Renderer} (lines : list str) (i : nat)
  (story : list flowable) (raw : str) :
  nth_error lines i = Some raw ->
  Py.strip (Py.rstrip raw) = "---" ->
  scan_step lines i story
  = Ok (i + 1,
        story ++ [Spacer 1 (3 * mm); HRFlowable "100%" (1 # 2) rule_color;
                  Spacer 1 (3 * mm)]).
Proof.
  intros Hraw Hstrip.
  unfold scan_step. rewrite (getitem_Some _ _ _ Hraw). cbn [bind].
  destruct (strip_first _ _ _ Hstrip) as (c & s' & Hline & Hc).
  rewrite Hstrip. rewrite Hline.
  assert (Hhash : Ascii.eqb "#" c = false).
  { destruct Hc as [Hc| ->]; [|reflexivity].
    destruct (Ascii.eqb "#" c) eqn:E; [|reflexivity].
    apply Ascii.eqb_eq in E. subst c. discriminate Hc. }
  cbn [Py.is_empty]. cbn [Py.startswith lit list_ascii_of_string].
  rewrite Hhash. cbn [andb]. reflexivity.
Qed.

Lemma rule_line_is_a_rule_witness :
  scan_step (R := accept_all)
    [ln "  ---  "; ln "| a | b |"; ln "|---|---|"] 0 []
  = Ok (1, [Spacer 1 (3 * mm); HRFlowable "100%" (1 # 2) rule_color;
            Spacer 1 (3 * mm)]).
Proof.
  apply (@rule_line_is_a_rule accept_all _ 0 [] (ln "  ---  "));
    reflexivity.
Defined.

(** ** Spans that are rewritten *)

(** A delimited span is rewritten when its content has one character at
    least and no newline, and the delimiter starts nowhere in the content
    after its first character: [re.sub] writes the content between the
    opening and the closing markup and goes on with the text after the
    closing delimiter. *)
Theorem delimited_span_is_rewritten (delim opening closing content rest : str) :
  content <> [] ->
  ~ In Re.newline content ->
  (forall j, 1 <= j < length content ->
             Py.startswith delim (skipn j (content ++ delim ++ rest)) = false) ->
  Re.sub_span delim opening closing (delim ++ content ++ delim ++ rest)
  = opening ++ content ++ closing ++ Re.sub_span delim opening closing rest.
Proof.
  intros Hne Hnl Hmin.
  assert (Hlen : 1 <= length content)
    by (destruct content; [congruence|simpl; lia]).
  assert (Hmatch : Re.match_span delim (delim ++ content ++ delim ++ rest)
                   = Some (length content)).
  { unfold Re.match_span. rewrite startswith_prefix, skipn_exact.
    apply lazy_dot_plus_complete.
    - rewrite length_app. lia.
    - now rewrite firstn_exact.
    - rewrite skipn_exact. apply startswith_prefix.
    - assumption. }
  destruct (delim ++ content ++ delim ++ rest) as [|c s] eqn:Hs.
  { destruct delim; [destruct content|]; simpl in *; try discriminate; lia. }
  rewrite sub_span_cons, Hmatch.
  rewrite (skipn_pred_cons _ c s) by lia.
  rewrite <- Hs, skipn_exact, firstn_exact.
  do 3 f_equal.
  rewrite <- !Nat.add_assoc, <- !skipn_skipn.
  now rewrite !skipn_exact.
Qed.

Lemma delimited_span_is_rewritten_witness :
  Re.sub_span "**" "<b>" "</b>" "**a*b** and **c**"
  = lit "<b>" ++ lit "a*b" ++ lit "</b>"
    ++ Re.sub_span "**" "<b>" "</b>" " and **c**".
Proof.
  apply (delimited_span_is_rewritten "**" "<b>" "</b>" "a*b" " and **c**").
  - discriminate.
  - simpl. intuition discriminate.
  - intros [|[|[|j]]] Hj; simpl in Hj; try lia; reflexivity.
Defined.

(** ** Text without markup *)

Lemma replace_no_first (o : ascii) (old' new s : str) :
  ~ In o s -> Py.replace (o :: old') new s = s.
Proof.
  induction s as [|c s IH]; intros H; [reflexivity|].
  rewrite replace_cons. cbn [Py.startswith].
  destruct (Ascii.eqb o c) eqn:E.
  - apply Ascii.eqb_eq in E. subst c. exfalso. apply H. now left.
  - cbn [andb]. rewrite IH; [reflexivity|]. intros Hin. apply H. now right.
Qed.

Lemma sub_span_no_delim (d : ascii) (delim' opening closing s : str) :
  ~ In d s -> Re.sub_span (d :: delim') opening closing s = s.
Proof.
  induction s as [|c s IH]; intros H; [reflexivity|].
  rewrite sub_span_cons. unfold Re.match_span. cbn [Py.startswith].
  destruct (Ascii.eqb d c) eqn:E.
  - apply Ascii.eqb_eq in E. subst c. exfalso. apply H. now left.
  - cbn [andb]. rewrite IH; [reflexivity|]. intros Hin. apply H. now right.
Qed.

Lemma escape_amp_chars (text : str) :
  Py.replace "&" "&amp;" text = flat_map escape_amp_char text.
Proof. apply (replace_char "&" "&amp;"). Qed.

Lemma In_escape_amp (d : ascii) (text : str) :
  In d (flat_map escape_amp_char text) ->
  In d text \/ In d (lit "&amp;").
Proof.
  intros H. apply in_flat_map in H. destruct H as (x & Hx & Hd).
  unfold escape_amp_char in Hd.
  destruct (Ascii.eqb "&" x); [now right|].
  destruct Hd as [<-|[]]. now left.
Qed.

Lemma escape_amp_char_amp (c : ascii) :
  Ascii.eqb "&" c = true ->
  escape_amp_char c = ("&" :: "a" :: "m" :: "p" :: ";" :: [])%char.
Proof. intros E. unfold escape_amp_char. now rewrite E. Qed.

Lemma escape_amp_char_other (c : ascii) :
  Ascii.eqb "&" c = false -> escape_amp_char c = [c].
Proof. intros E. unfold escape_amp_char. now rewrite E. Qed.

Section EscapedAmpersand.

Variables old'' new : str.

(** After the escaping of [&], every [&] is followed by [amp;], so that
    no escaped tag, which starts with [&l], is found in the text. *)
Lemma replace_after_escape_amp (text : str) :
  Py.replace ("&" :: "l" :: old'')%char new (flat_map escape_amp_char text)
  = flat_map escape_amp_char text.
Proof.
  induction text as [|c text IH]; [reflexivity|].
  cbn [flat_map].
  destruct (Ascii.eqb "&" c) eqn:E.
  - rewrite (escape_amp_char_amp _ E). cbn [app].
    rewrite !replace_cons. cbn [Py.startswith Ascii.eqb Bool.eqb andb].
    now rewrite IH.
  - rewrite (escape_amp_char_other _ E). cbn [app].
    rewrite replace_cons. cbn [Py.startswith].
    rewrite E. cbn [andb]. now rewrite IH.
Qed.

End EscapedAmpersand.

Lemma sub_font_after_escape_amp (text : str) :
  Re.sub_font (flat_map escape_amp_char text) = flat_map escape_amp_char text.
Proof.
  induction text as [|c text IH]; [reflexivity|].
  cbn [flat_map].
  destruct (Ascii.eqb "&" c) eqn:E.
  - rewrite (escape_amp_char_amp _ E). cbn [app].
    rewrite !sub_font_cons. unfold Re.match_font.
    cbn [Py.startswith lit list_ascii_of_string Ascii.eqb Bool.eqb andb].
    now rewrite IH.
  - rewrite (escape_amp_char_other _ E). cbn [app].
    rewrite sub_font_cons. unfold Re.match_font.
    cbn [Py.startswith lit list_ascii_of_string].
    rewrite E. cbn [andb]. now rewrite IH.
Qed.

(** On a text without asterisk, backtick and angle bracket,
    [format_inline] does nothing but write [&amp;] for every [&]: an
    entity typed in the text is not read as markup.  A text that has no
    [&] either comes out as it is. *)
Theorem plain_text_is_only_amp_escaped (text : str) :
  ~ In "*"%char text ->
  ~ In "`"%char text ->
  ~ In "<"%char text ->
  ~ In ">"%char text ->
  format_inline text = flat_map escape_amp_char text
  /\ (~ In "&"%char text -> format_inline text = text).
Proof.
  intros Hstar Htick Hlt Hgt.
  assert (Hout : forall d, ~ In d text -> ~ In d (lit "&amp;") ->
                           ~ In d (flat_map escape_amp_char text)).
  { intros d H1 H2 H. apply In_escape_amp in H. tauto. }
  assert (Hfmt : format_inline text = flat_map escape_amp_char text).
  { unfold format_inline. rewrite escape_amp_chars.
    set (escaped := flat_map escape_amp_char text) in *.
    change (lit "***") with ("*"%char :: lit "**").
    change (lit "**") with ("*"%char :: lit "*").
    change (lit "*") with ("*"%char :: []).
    change (lit "`") with ("`"%char :: []).
    do 3 rewrite (sub_span_no_delim "*"%char _ _ _ escaped)
      by (apply Hout; [assumption|simpl; intuition discriminate]).
    rewrite (sub_span_no_delim "`"%char _ _ _ escaped)
      by (apply Hout; [assumption|simpl; intuition discriminate]).
    change (lit "<") with ("<"%char :: []).
    change (lit ">") with (">"%char :: []).
    rewrite (replace_no_first "<"%char _ _ escaped)
      by (apply Hout; [assumption|simpl; intuition discriminate]).
    rewrite (replace_no_first ">"%char _ _ escaped)
      by (apply Hout; [assumption|simpl; intuition discriminate]).
    change (lit "&lt;b&gt;") with ("&" :: "l" :: lit "t;b&gt;")%char.
    change (lit "&lt;/b&gt;") with ("&" :: "l" :: lit "t;/b&gt;")%char.
    change (lit "&lt;i&gt;") with ("&" :: "l" :: lit "t;i&gt;")%char.
    change (lit "&lt;/i&gt;") with ("&" :: "l" :: lit "t;/i&gt;")%char.
    change (lit "&lt;/font&gt;") with ("&" :: "l" :: lit "t;/font&gt;")%char.
    subst escaped.
    rewrite !replace_after_escape_amp.
    apply sub_font_after_escape_amp. }
  split; [exact Hfmt|].
  intros Hamp. rewrite Hfmt. clear -Hamp.
  induction text as [|c text IH]; [reflexivity|].
  cbn [flat_map].
  destruct (Ascii.eqb "&" c) eqn:E.
  - apply Ascii.eqb_eq in E. subst c. exfalso. apply Hamp. now left.
  - rewrite (escape_amp_char_other _ E). cbn [app]. f_equal.
    apply IH. intros H. apply Hamp. now right.
Qed.

Lemma plain_text_is_only_amp_escaped_witness :
  format_inline "R&D &lt;b&gt; - x" = "R&amp;D &amp;lt;b&amp;gt; - x".
Proof.
  refine (proj1 (plain_text_is_only_amp_escaped "R&D &lt;b&gt; - x" _ _ _ _));
    simpl; intuition discriminate.
Defined.

(** ** No bare ampersand *)

Lemma amps_tail (c : ascii) (s : str) :
  amps_open_entities (c :: s) = true -> amps_open_entities s = true.
Proof. cbn [amps_open_entities]. intros H. now apply andb_true_iff in H. Qed.

Lemma amps_skipn (s : str) :
  forall k, amps_open_entities s = true ->
            amps_open_entities (skipn k s) = true.
Proof.
  induction s as [|c s IH]; intros [|k] H; try assumption; try reflexivity.
  cbn [skipn]. apply IH. now apply amps_tail with c.
Qed.

Lemma amps_app_no_amp (a b : str) :
  ~ In "&"%char a ->
  amps_open_entities b = true ->
  amps_open_entities (a ++ b) = true.
Proof.
  induction a as [|c a IH]; intros Ha Hb; [assumption|].
  cbn [app amps_open_entities].
  destruct (Ascii.eqb c "&") eqn:E.
  - apply Ascii.eqb_eq in E. subst c. exfalso. apply Ha. now left.
  - apply IH; [|assumption]. intros H. apply Ha. now right.
Qed.

Lemma amps_cons (c : ascii) (s1 s2 : str) :
  (forall t, In t entities ->
             Py.startswith t s1 = true -> Py.startswith t s2 = true) ->
  amps_open_entities (c :: s1) = true ->
  amps_open_entities s2 = true ->
  amps_open_entities (c :: s2) = true.
Proof.
  intros Hkeep H1 H2. cbn [amps_open_entities] in *.
  apply andb_true_iff in H1. destruct H1 as [H1 _].
  rewrite H2, andb_true_r.
  destruct (Ascii.eqb c "&"); [|reflexivity].
  unfold entity_start in *. apply existsb_exists in H1.
  destruct H1 as (t & Ht & Hstart).
  apply existsb_exists. exists t. split; [assumption|now apply Hkeep].
Qed.

(** The characters of the entities: none of them is a delimiter, an
    angle bracket or [&]. *)
Lemma entity_chars (t : str) (d : ascii) :
  In t entities ->
  In d (lit "*`<>&") ->
  ~ In d t.
Proof.
  unfold entities. simpl. intros Ht Hd.
  repeat (destruct Ht as [<-|Ht];
          [repeat (destruct Hd as [<-|Hd];
                   [simpl; intuition discriminate|]); destruct Hd|]).
  destruct Ht.
Qed.

Lemma startswith_before_char (d : ascii) (t a r z : str) :
  ~ In d t ->
  Py.startswith t (a ++ d :: r) = true ->
  Py.startswith t (a ++ z) = true.
Proof.
  revert a; induction t as [|x t IH]; intros a Hd H; [reflexivity|].
  destruct a as [|y a]; cbn [app Py.startswith] in *.
  - apply andb_true_iff in H. destruct H as [H _].
    apply Ascii.eqb_eq in H. subst x. exfalso. apply Hd. now left.
  - apply andb_true_iff in H. destruct H as [Hxy H].
    rewrite Hxy. cbn [andb]. apply IH; [|assumption].
    intros Hin. apply Hd. now right.
Qed.

Lemma amps_before_char (d : ascii) (a r z : str) :
  In d (lit "*`<>&") ->
  amps_open_entities (a ++ d :: r) = true ->
  amps_open_entities z = true ->
  amps_open_entities (a ++ z) = true.
Proof.
  intros Hd. induction a as [|c a IH]; intros H Hz; [assumption|].
  cbn [app] in *.
  apply amps_cons with (a ++ d :: r).
  - intros t Ht. apply startswith_before_char.
    now apply entity_chars.
  - assumption.
  - apply IH; [now apply amps_tail with c|assumption].
Qed.

(** A prefix in which the first character of [old] does not occur is
    kept by a rewriting that starts its matches at that character. *)
Lemma sub_span_keeps_prefix (d : ascii) (delim' opening closing t : str) :
  forall s,
    ~ In d t ->
    Py.startswith t s = true ->
    Py.startswith t (Re.sub_span (d :: delim') opening closing s) = true.
Proof.
  induction t as [|x t IH]; intros s Hd H; [reflexivity|].
  destruct s as [|y s]; cbn [Py.startswith] in H; [discriminate|].
  apply andb_true_iff in H. destruct H as [Hxy H].
  apply Ascii.eqb_eq in Hxy. subst y.
  rewrite sub_span_cons. unfold Re.match_span. cbn [Py.startswith].
  destruct (Ascii.eqb d x) eqn:E.
  - apply Ascii.eqb_eq in E. subst x. exfalso. apply Hd. now left.
  - cbn [andb Py.startswith]. rewrite Ascii.eqb_refl. cbn [andb].
    apply IH; [|assumption]. intros Hin. apply Hd. now right.
Qed.

Lemma replace_char_keeps_prefix (x : ascii) (new t : str) :
  forall s,
    ~ In x t ->
    Py.startswith t s = true ->
    Py.startswith t (Py.replace [x] new s) = true.
Proof.
  induction t as [|y t IH]; intros s Hx H; [reflexivity|].
  destruct s as [|z s]; cbn [Py.startswith] in H; [discriminate|].
  apply andb_true_iff in H. destruct H as [Hyz H].
  apply Ascii.eqb_eq in Hyz. subst z.
  rewrite replace_cons. cbn [Py.startswith].
  destruct (Ascii.eqb x y) eqn:E.
  - apply Ascii.eqb_eq in E. subst y. exfalso. apply Hx. now left.
  - cbn [andb Py.startswith]. rewrite Ascii.eqb_refl. cbn [andb].
    apply IH; [|assumption]. intros Hin. apply Hx. now right.
Qed.

(** The rewriting at a match, with the text that is left to rewrite. *)
Lemma sub_span_at_match (delim opening closing s : str) (k : nat) :
  Re.match_span delim s = Some k ->
  exists group rest,
    s = delim ++ group ++ delim ++ rest
    /\ 1 <= length group
    /\ Re.sub_span delim opening closing s
       = opening ++ group ++ closing
         ++ Re.sub_span delim opening closing rest.
Proof.
  intros E.
  destruct (match_span_shape _ _ _ E)
    as (group & rest & Hs & Hlen & Hk & _).
  exists group, rest. split; [assumption|]. split; [lia|].
  destruct s as [|c s'].
  { destruct delim; [destruct group|]; simpl in *; try discriminate; lia. }
  rewrite sub_span_cons, E.
  rewrite (skipn_pred_cons _ c s') by lia.
  rewrite Hs. rewrite skipn_exact, <- Hlen, firstn_exact.
  do 3 f_equal.
  rewrite <- !Nat.add_assoc, <- !skipn_skipn.
  now rewrite !skipn_exact.
Qed.

Lemma amps_entity (x : str) :
  amps_open_entities (lit "&amp;" ++ x) = amps_open_entities x
  /\ amps_open_entities (lit "&lt;" ++ x) = amps_open_entities x
  /\ amps_open_entities (lit "&gt;" ++ x) = amps_open_entities x.
Proof. repeat split. Qed.

Lemma escape_amp_amps (text : str) :
  amps_open_entities (flat_map escape_amp_char text) = true.
Proof.
  induction text as [|c text IH]; [reflexivity|].
  cbn [flat_map]. destruct (Ascii.eqb "&" c) eqn:E.
  - rewrite (escape_amp_char_amp _ E).
    now rewrite (proj1 (amps_entity _)).
  - rewrite (escape_amp_char_other _ E). cbn [app amps_open_entities].
    rewrite Ascii.eqb_sym, E. exact IH.
Qed.

Section SpanKeepsEntities.

Variable d : ascii.
Variables delim' opening closing : str.
Hypothesis d_marker : In d (lit "*`<>&").
Hypothesis opening_no_amp : ~ In "&"%char opening.
Hypothesis closing_no_amp : ~ In "&"%char closing.

Lemma sub_span_amps_bounded :
  forall n s,
    length s <= n ->
    amps_open_entities s = true ->
    amps_open_entities (Re.sub_span (d :: delim') opening closing s) = true.
Proof.
  induction n as [|n IH]; intros [|c s] Hlen H; try reflexivity;
    cbn [length] in Hlen; [lia|].
  destruct (Re.match_span (d :: delim') (c :: s)) as [k|] eqn:E.
  - destruct (sub_span_at_match _ opening closing _ _ E)
      as (group & rest & Hs & Hgroup & ->).
    assert (Hinner : amps_open_entities (group ++ (d :: delim') ++ rest) = true).
    { rewrite Hs in H.
      apply (amps_skipn _ (length (d :: delim'))) in H.
      now rewrite skipn_exact in H. }
    assert (Hrest : amps_open_entities rest = true).
    { apply (amps_skipn _ (length group)) in Hinner.
      rewrite skipn_exact in Hinner.
      apply (amps_skipn _ (length (d :: delim'))) in Hinner.
      now rewrite skipn_exact in Hinner. }
    apply amps_app_no_amp; [assumption|].
    apply amps_before_char with d (delim' ++ rest);
      [assumption|exact Hinner|].
    apply amps_app_no_amp; [assumption|].
    apply IH; [|assumption].
    assert (Hl : length (c :: s)
                 = length ((d :: delim') ++ group ++ (d :: delim') ++ rest))
      by now rewrite Hs.
    rewrite !length_app in Hl. cbn [length] in Hl. lia.
  - rewrite sub_span_cons, E.
    apply amps_cons with s.
    + intros t Ht. apply sub_span_keeps_prefix.
      now apply entity_chars.
    + assumption.
    + apply IH; [lia|]. now apply amps_tail with c.
Qed.

End SpanKeepsEntities.

Lemma replace_char_amps (x : ascii) (new s : str) :
  In x (lit "*`<>&") ->
  (forall y, amps_open_entities (new ++ y) = amps_open_entities y) ->
  amps_open_entities s = true ->
  amps_open_entities (Py.replace [x] new s) = true.
Proof.
  intros Hx Hnew. induction s as [|c s IH]; intros H; [reflexivity|].
  pose proof (amps_tail _ _ H) as Htail.
  rewrite replace_cons. cbn [Py.startswith length Nat.sub skipn].
  destruct (Ascii.eqb x c); cbn [andb].
  - rewrite Hnew. now apply IH.
  - apply amps_cons with s.
    + intros t Ht. apply replace_char_keeps_prefix.
      now apply entity_chars.
    + assumption.
    + now apply IH.
Qed.

Section UnescapeKeepsEntities.

Variables old new : str.
Hypothesis old_amp : exists old', old = "&"%char :: old'.
Hypothesis new_no_amp : ~ In "&"%char new.

Lemma replace_amps_bounded :
  forall n s,
    length s <= n ->
    amps_open_entities s = true ->
    amps_open_entities (Py.replace old new s) = true.
Proof.
  induction n as [|n IH]; intros [|c s] Hlen H; try reflexivity;
    cbn [length] in Hlen; [lia|].
  rewrite replace_cons.
  pose proof (amps_tail _ _ H) as Htail.
  destruct (Py.startswith old (c :: s)).
  - apply amps_app_no_amp; [assumption|]. apply IH.
    + rewrite length_skipn. lia.
    + now apply amps_skipn.
  - apply amps_cons with s.
    + intros t Ht. apply (replace_keeps_prefix old new old_amp).
      apply entity_chars; [assumption|]. simpl. tauto.
    + assumption.
    + apply IH; [lia|assumption].
Qed.

Lemma replace_amps (s : str) :
  amps_open_entities s = true ->
  amps_open_entities (Py.replace old new s) = true.
Proof. apply replace_amps_bounded with (length s). lia. Qed.

End UnescapeKeepsEntities.

Lemma sub_font_amps_bounded :
  forall n s,
    length s <= n ->
    amps_open_entities s = true ->
    amps_open_entities (Re.sub_font s) = true.
Proof.
  induction n as [|n IH]; intros [|c s] Hlen H; try reflexivity;
    cbn [length] in Hlen; [lia|].
  rewrite sub_font_cons.
  destruct (Re.match_font (c :: s)) as [k|] eqn:E.
  - destruct (match_font_shape _ _ E) as (a & rest & Hs & Hk & Hamp).
    rewrite (skipn_pred_cons _ c s) by lia.
    rewrite Hs, <- Hk, skipn_font_match.
    change (skipn 8 (lit "&lt;font" ++ a ++ lit "&gt;" ++ rest))
      with (a ++ lit "&gt;" ++ rest).
    rewrite firstn_exact.
    change (amps_open_entities
              (lit "<font" ++ a ++ lit ">" ++ Re.sub_font rest) = true).
    apply amps_app_no_amp; [simpl; intuition discriminate|].
    apply amps_app_no_amp; [assumption|].
    apply amps_app_no_amp; [simpl; intuition discriminate|].
    apply IH.
    + assert (Hl : length (c :: s)
                   = length (lit "&lt;font" ++ a ++ lit "&gt;" ++ rest))
        by now rewrite Hs.
      rewrite !length_app in Hl.
      change (length (lit "&lt;font")) with 8 in Hl.
      cbn [length] in Hl. lia.
    + rewrite Hs in H.
      apply (amps_skipn _ (8 + length a + 4)) in H.
      now rewrite skipn_font_match in H.
  - apply amps_cons with s.
    + intros t Ht. apply sub_font_keeps_prefix.
      apply entity_chars; [assumption|]. simpl. tauto.
    + assumption.
    + apply IH; [lia|]. now apply amps_tail with c.
Qed.

(** Every [&] in the result of [format_inline] starts one of the
    entities [&amp;], [&lt;] and [&gt;]: no bare ampersand of the raw
    text reaches the renderer, and the rewriting of spans and tags cuts
    no entity. *)
Theorem format_inline_leaves_no_bare_amp (text : str) :
  amps_open_entities (format_inline text) = true.
Proof.
  unfold format_inline. rewrite escape_amp_chars.
  eapply sub_font_amps_bounded; [apply le_n|].
  repeat (apply replace_amps;
          [eexists; reflexivity|simpl; intuition discriminate|]).
  change (lit ">") with [">"%char]. change (lit "<") with ["<"%char].
  apply replace_char_amps;
    [simpl; tauto|intros y; apply amps_entity|].
  apply replace_char_amps;
    [simpl; tauto|intros y; apply amps_entity|].
  change (lit "***") with ("*"%char :: lit "**").
  change (lit "**") with ("*"%char :: lit "*").
  change (lit "*") with ("*"%char :: []).
  change (lit "`") with ("`"%char :: []).
  repeat (eapply sub_span_amps_bounded;
          [simpl; tauto
          |try (unfold font_open, dquote); simpl; intuition discriminate
          |simpl; intuition discriminate
          |apply le_n|]).
  apply escape_amp_amps.
Qed.
